(** * Conversation session of the Jarvis chat front end

    A shallow embedding of [frontend/src/App.jsx]: the three pieces of React
    state of the [App] component ([messages], [input], [loading]), the
    asynchronous handler [sendMessage], the key handler [handleKeyDown] and
    the events the rendered page can deliver to them.

    Modelling conventions.
    - A JavaScript string is the list of its UTF-16 code units.
    - A state setter is a write to the session, performed in program order;
      every handler runs against the state left by the previous one (React
      commits the queued updates of a handler before it delivers the next
      event).
    - [sendMessage] is an [async] function.  Its body up to the first
      [await] is the function [sendMessage]; what runs once both awaited
      promises ([fetch] and [res.json()]) have settled is
      [sendMessage_resume].  No statement of the body runs between the two
      awaits, so one [Settle] event carries their joint outcome.
    - An updater handed to a setter is run by React when it next renders
      [App], not by the handler.  The updaters of [sendMessage] that cannot
      throw are applied at the call; the one that can (it reads
      [data.answer]) leaves, when it throws, the transcript as it is and the
      exception in [thrown]: the render that runs it ends with it.
    - Every write and every request is also appended to a log, oldest
      first, so that orderings can be stated. *)

From Stdlib Require Import NArith String Ascii SpecFloat.
From stdpp Require Import base option list gmap.

#[local] Set Warnings "-register-all".
#[local] Open Scope N_scope.

(** ** Strings *)

Abbreviation jsstring := (list N).

(** The code units of an ASCII literal. *)
Definition js (s : string) : jsstring := N_of_ascii <$> list_ascii_of_string s.
Arguments js s%_string.

(** ECMAScript [WhiteSpace]: TAB, VT, FF, ZWNBSP and the Unicode category
    Space_Separator. *)
Definition is_WhiteSpace (c : N) : bool :=
  (c =? 0x0009) || (c =? 0x000B) || (c =? 0x000C) || (c =? 0xFEFF)
  || (c =? 0x0020) || (c =? 0x00A0) || (c =? 0x1680)
  || ((0x2000 <=? c) && (c <=? 0x200A))
  || (c =? 0x202F) || (c =? 0x205F) || (c =? 0x3000).

(** ECMAScript [LineTerminator]: LF, CR, LS, PS. *)
Definition is_LineTerminator (c : N) : bool :=
  (c =? 0x000A) || (c =? 0x000D) || (c =? 0x2028) || (c =? 0x2029).

Definition is_trimmable (c : N) : bool := is_WhiteSpace c || is_LineTerminator c.

Fixpoint drop_while {A} (p : A → bool) (l : list A) : list A :=
  match l with
  | [] => []
  | x :: l' => if p x then drop_while p l' else l
  end.

Definition trimStart (s : jsstring) : jsstring := drop_while is_trimmable s.
Definition trimEnd (s : jsstring) : jsstring :=
  reverse (drop_while is_trimmable (reverse s)).

(** [String.prototype.trim]. *)
Definition trim (s : jsstring) : jsstring := trimEnd (trimStart s).

(** ** Values *)

(** What [res.json()] can resolve with, and [undefined] for the result of
    reading a property that is not there. *)
Inductive JSValue : Type :=
  | JSUndefined
  | JSNull
  | JSBoolean (b : bool)
  | JSNumber (x : spec_float)
  | JSString (s : jsstring)
  | JSArray (xs : list JSValue)
  | JSObject (props : gmap jsstring JSValue).

Inductive JSError : Type :=
  | TypeError
  | SyntaxError
  | AbortError.

(** [ToBoolean]: the falsy values are [undefined], [null], [false], [0],
    [-0], [NaN] and the empty string. *)
Definition ToBoolean (v : JSValue) : bool :=
  match v with
  | JSUndefined | JSNull => false
  | JSBoolean b => b
  | JSNumber (S754_zero _) | JSNumber S754_nan => false
  | JSNumber _ => true
  | JSString s => negb (bool_decide (s = []))
  | JSArray _ | JSObject _ => true
  end.

(** [a || b]. *)
Definition or_else (a b : JSValue) : JSValue := if ToBoolean a then a else b.

(** [v.k] for a property name [k] that is neither an array index nor
    defined by a built-in prototype ([answer] and [sources] are the two
    names the component reads).  Reading a property of [null] or
    [undefined] throws; an object parsed from JSON answers with its own
    property; every other value has no such property. *)
Definition Get (v : JSValue) (k : jsstring) : JSError + JSValue :=
  match v with
  | JSUndefined | JSNull => inl TypeError
  | JSObject props => inr (default JSUndefined (props !! k))
  | _ => inr JSUndefined
  end.

(** ** JSON.stringify of a string *)

Definition is_leading_surrogate (c : N) : bool := (0xD800 <=? c) && (c <=? 0xDBFF).
Definition is_trailing_surrogate (c : N) : bool := (0xDC00 <=? c) && (c <=? 0xDFFF).

Definition hex_digit (n : N) : N := if n <? 10 then 0x30 + n else 0x57 + n.

(** [UnicodeEscape]: backslash, [u] and four lower-case hexadecimal digits. *)
Definition UnicodeEscape (c : N) : jsstring :=
  [0x5C; 0x75; hex_digit (c / 4096 mod 16); hex_digit (c / 256 mod 16);
   hex_digit (c / 16 mod 16); hex_digit (c mod 16)].

(** One code unit that is not part of a surrogate pair. *)
Definition quote_unit (c : N) : jsstring :=
  if c =? 0x08 then [0x5C; 0x62]
  else if c =? 0x09 then [0x5C; 0x74]
  else if c =? 0x0A then [0x5C; 0x6E]
  else if c =? 0x0C then [0x5C; 0x66]
  else if c =? 0x0D then [0x5C; 0x72]
  else if c =? 0x22 then [0x5C; 0x22]
  else if c =? 0x5C then [0x5C; 0x5C]
  else if (c <? 0x20) || is_leading_surrogate c || is_trailing_surrogate c
       then UnicodeEscape c
  else [c].

Fixpoint quote_units (s : jsstring) : jsstring :=
  match s with
  | [] => []
  | c :: rest =>
      if is_leading_surrogate c then
        match rest with
        | d :: rest' =>
            if is_trailing_surrogate d then c :: d :: quote_units rest'
            else quote_unit c ++ quote_units rest
        | [] => quote_unit c
        end
      else quote_unit c ++ quote_units rest
  end.

(** [QuoteJSONString]. *)
Definition QuoteJSONString (s : jsstring) : jsstring :=
  [0x22] ++ quote_units s ++ [0x22].

(** The reading direction, after the JSON grammar of a string literal:
    what a reader makes of the code units between the two quotes.  It is
    used only to show that [QuoteJSONString] loses nothing. *)
Definition hex_value (d : N) : option N :=
  if (0x30 <=? d) && (d <=? 0x39) then Some (d - 0x30)
  else if (0x61 <=? d) && (d <=? 0x66) then Some (d - 0x57)
  else if (0x41 <=? d) && (d <=? 0x46) then Some (d - 0x37)
  else None.

Definition read_escape (e : N) : option N :=
  if e =? 0x62 then Some 0x08
  else if e =? 0x74 then Some 0x09
  else if e =? 0x6E then Some 0x0A
  else if e =? 0x66 then Some 0x0C
  else if e =? 0x72 then Some 0x0D
  else if e =? 0x22 then Some 0x22
  else if e =? 0x5C then Some 0x5C
  else if e =? 0x2F then Some 0x2F
  else None.

Definition read_hex4 (a b c d : N) : option N :=
  match hex_value a, hex_value b, hex_value c, hex_value d with
  | Some x, Some y, Some z, Some w => Some (4096 * x + 256 * y + 16 * z + w)
  | _, _, _, _ => None
  end.

Fixpoint read_units (s : jsstring) : option jsstring :=
  match s with
  | [] => Some []
  | c :: rest =>
      if c =? 0x5C then
        match rest with
        | e :: rest1 =>
            if e =? 0x75 then
              match rest1 with
              | h1 :: h2 :: h3 :: h4 :: rest2 =>
                  match read_hex4 h1 h2 h3 h4 with
                  | Some u => cons u <$> read_units rest2
                  | None => None
                  end
              | _ => None
              end
            else
              match read_escape e with
              | Some u => cons u <$> read_units rest1
              | None => None
              end
        | [] => None
        end
      else if (c =? 0x22) || (c <? 0x20) then None
      else cons c <$> read_units rest
  end.

#[local] Close Scope N_scope.

(** ** Messages, requests and the session *)

Inductive Role : Type := user | bot.

(** An element of [messages].  [sources] is [None] when the object has no
    [sources] property. *)
Record Message : Type := mkMessage {
  role : Role;
  text : JSValue;
  sources : option JSValue
}.

(** The arguments of a [fetch] call. *)
Record Request : Type := mkRequest {
  url : jsstring;
  method : jsstring;
  headers : list (jsstring * jsstring);
  body : jsstring
}.

(** How the two awaited promises of [sendMessage] settle: [fetch] rejects,
    or [fetch] resolves and [res.json()] rejects, or both resolve and the
    body decodes to [data]. *)
Inductive Outcome : Type :=
  | FetchRejected (err : JSError)
  | JsonRejected (err : JSError)
  | Decoded (data : JSValue).

Inductive Effect : Type :=
  | SetMessages (next : list Message)
  | SetInput (value : jsstring)
  | SetLoading (b : bool)
  | Fetch (req : Request)
  | Settled (req : Request) (out : Outcome)
  | ConsoleError (err : JSError).

Record Session : Type := mkSession {
  messages : list Message;
  input : jsstring;
  loading : bool;
  (** requests handed to [fetch] whose [sendMessage] has not resumed yet *)
  inflight : list Request;
  log : list Effect;
  (** the exception of an updater that threw when React ran it: the
      render of [App] ends with it *)
  thrown : option JSError
}.

Definition record (e : Effect) (s : Session) : Session :=
  mkSession (messages s) (input s) (loading s) (inflight s) (log s ++ [e])
    (thrown s).

(** [setMessages(updater)]. *)
Definition setMessages (updater : list Message → list Message) (s : Session) : Session :=
  let next := updater (messages s) in
  record (SetMessages next)
    (mkSession next (input s) (loading s) (inflight s) (log s) (thrown s)).

(** [setMessages(updater)] for an updater that can throw.  The call itself
    never throws.  When the updater throws nothing is written, and the
    render in which React runs it ends with the exception. *)
Definition setMessages_throwing
    (updater : list Message → JSError + list Message) (s : Session) : Session :=
  match updater (messages s) with
  | inr next => setMessages (λ _, next) s
  | inl err =>
      mkSession (messages s) (input s) (loading s) (inflight s) (log s)
        (match thrown s with Some first => Some first | None => Some err end)
  end.

Definition setInput (value : jsstring) (s : Session) : Session :=
  record (SetInput value)
    (mkSession (messages s) value (loading s) (inflight s) (log s) (thrown s)).

Definition setLoading (b : bool) (s : Session) : Session :=
  record (SetLoading b)
    (mkSession (messages s) (input s) b (inflight s) (log s) (thrown s)).

Definition fetch (req : Request) (s : Session) : Session :=
  record (Fetch req)
    (mkSession (messages s) (input s) (loading s) (inflight s ++ [req]) (log s)
       (thrown s)).

Definition console_error (err : JSError) (s : Session) : Session :=
  record (ConsoleError err) s.

(** Statements in sequence. *)
Notation "f >> g" := (λ s : Session, g (f s))
  (at level 61, left associativity, only parsing).

(** [useState] initial values. *)
Definition greeting : Message :=
  mkMessage bot
    (JSString (js "Hi! I" ++ [0x2019%N]
               ++ js "m Jarvis. Ask me something from the knowledge base."))
    None.

Definition init : Session := mkSession [greeting] [] false [] [] None.

Definition user_message (msg : jsstring) : Message :=
  mkMessage user (JSString msg) None.

Definition error_message : Message :=
  mkMessage bot
    (JSString (js "Error: Could not reach backend. Is it running on port 8000?"))
    None.

Record KeyboardEvent : Type := mkKeyboardEvent { key : jsstring }.

Inductive Event : Type :=
  | Change (value : jsstring)
  | KeyDown (e : KeyboardEvent)
  | Click
  | Settle (out : Outcome).

Definition is_ui (ev : Event) : bool :=
  match ev with Settle _ => false | _ => true end.

Definition is_failure (out : Outcome) : bool :=
  match out with Decoded _ => false | _ => true end.

(** The requests dispatched so far, oldest first. *)
Definition fetches (l : list Effect) : list Request :=
  omap (λ e, match e with Fetch req => Some req | _ => None end) l.


(** The own property [k] of a decoded value, if it has one. *)
Definition own_property (data : JSValue) (k : jsstring) : option JSValue :=
  match data with
  | JSObject props => props !! k
  | _ => None
  end.

(** ** The rendered page

    What the component returns: a tree of elements.  An attribute that is a
    handler holds the function the component passes; [onChange] is given
    as a function of [e.target.value]. *)

Inductive Attr : Type :=
  | ClassName (c : jsstring)
  | Key (i : nat)
  | Value (v : jsstring)
  | Placeholder (p : jsstring)
  | Disabled (b : bool)
  | OnChange (h : jsstring → Session → Session)
  | OnKeyDown (h : KeyboardEvent → Session → Session)
  | OnClick (h : Session → Session).

(** An element, an array of nodes (the result of a [map]), or a braced
    expression or literal text. *)
Inductive Node : Type :=
  | Elem (tag : jsstring) (attrs : list Attr) (children : list Node)
  | Items (nodes : list Node)
  | Expr (v : JSValue).

Definition role_name (r : Role) : jsstring :=
  match r with user => js "user" | bot => js "bot" end.

(** [ToBoolean(v?.length)]: the optional chain stops at [undefined] and
    [null]; an array and a string have their length; an object parsed from
    JSON has the own property of that name, if any; booleans and numbers
    have none. *)
Definition truthy_length (v : JSValue) : bool :=
  match v with
  | JSUndefined | JSNull => false
  | JSArray xs => negb (bool_decide (xs = []))
  | JSString s => negb (bool_decide (s = []))
  | JSObject props => ToBoolean (default JSUndefined (props !! js "length"))
  | JSBoolean _ | JSNumber _ => false
  end.

(** [Array.prototype.map] with a callback of the element and its index,
    from index [i] on; the first exception thrown by the callback ends
    it. *)
Fixpoint Array_map {A B} (f : A → nat → JSError + B) (i : nat) (l : list A)
    : JSError + list B :=
  match l with
  | [] => inr []
  | x :: l' =>
      match f x i with
      | inl err => inl err
      | inr y =>
          match Array_map f (S i) l' with
          | inl err => inl err
          | inr ys => inr (y :: ys)
          end
      end
  end.

(** The callback of [m.sources.map]; [source] and [chunk_id] are names
    that [Get] covers. *)
Definition source_tag (s : JSValue) (i : nat) : JSError + Node :=
  match Get s (js "source") with
  | inl err => inl err
  | inr src =>
      match Get s (js "chunk_id") with
      | inl err => inl err
      | inr chunk =>
          inr (Elem (js "span") [Key i; ClassName (js "sourceTag")]
                 [Expr src; Expr (JSString (js "#")); Expr chunk])
      end
  end.

(** [m.sources?.length ? <div className="sources">...</div> : null].
    Calling [map] on a value that is not an array throws: a string has no
    such method, and an object parsed from JSON holds no function. *)
Definition sources_block (m : Message) : JSError + Node :=
  match sources m with
  | None => inr (Expr JSNull)
  | Some v =>
      if truthy_length v then
        match v with
        | JSArray xs =>
            match Array_map source_tag 0 xs with
            | inl err => inl err
            | inr tags =>
                inr (Elem (js "div") [ClassName (js "sources")]
                       [Elem (js "span") [] [Expr (JSString (js "Sources: "))];
                        Items tags])
            end
        | _ => inl TypeError
        end
      else inr (Expr JSNull)
  end.

(** The callback of [messages.map]. *)
Definition bubble_row (m : Message) (idx : nat) : JSError + Node :=
  match sources_block m with
  | inl err => inl err
  | inr block =>
      inr (Elem (js "div")
             [Key idx; ClassName (js "bubbleRow " ++ role_name (role m))]
             [Elem (js "div") [ClassName (js "bubble")]
                [Elem (js "div") [ClassName (js "role")]
                   [Expr (JSString
                            (match role m with
                             | user => js "You"
                             | bot => js "Jarvis"
                             end))];
                 Elem (js "div") [ClassName (js "text")] [Expr (text m)];
                 block]])
  end.

(** The elements of a tree that satisfy [p], in document order. *)
Fixpoint select (p : jsstring → list Attr → bool) (n : Node) : list Node :=
  match n with
  | Elem tag attrs children =>
      (if p tag attrs then [n] else []) ++ flat_map (select p) children
  | Items nodes => flat_map (select p) nodes
  | Expr _ => []
  end.

Definition has_tag (t : jsstring) (tag : jsstring) (attrs : list Attr) : bool :=
  bool_decide (tag = t).

Definition has_class (c : jsstring) (tag : jsstring) (attrs : list Attr) : bool :=
  existsb (λ a, match a with ClassName c' => bool_decide (c' = c) | _ => false end)
    attrs.

(** A value whose properties can be read. *)
Definition object_like (v : JSValue) : bool :=
  match v with JSUndefined | JSNull => false | _ => true end.

(** The messages whose [sources] the page can show: none, or a value
    without a truthy length, or an array without [null] in it. *)
Definition renderable (m : Message) : bool :=
  match sources m with
  | None => true
  | Some v =>
      negb (truthy_length v)
      || match v with JSArray xs => forallb object_like xs | _ => false end
  end.

(** A decoded body that is not [null] and whose [sources] is absent,
    falsy, or an array without [null] in it. *)
Definition well_formed_body (data : JSValue) : bool :=
  object_like data
  && match own_property data (js "sources") with
     | None => true
     | Some v =>
         negb (ToBoolean v)
         || match v with JSArray xs => forallb object_like xs | _ => false end
     end.

Definition well_formed_event (ev : Event) : bool :=
  match ev with
  | Settle (Decoded data) => well_formed_body data
  | _ => true
  end.

(** A non-empty string that neither starts nor ends with white space or
    a line terminator. *)
Definition trimmed (t : jsstring) : Prop :=
  t ≠ []
  ∧ (∀ c, head t = Some c → is_trimmable c = false)
  ∧ (∀ c, last t = Some c → is_trimmable c = false).

(** The texts of the user messages of a transcript, oldest first. *)
Definition sent_texts (ms : list Message) : list jsstring :=
  omap (λ m, match role m, text m with
             | user, JSString t => Some t
             | _, _ => None
             end) ms.

(** [v.k] for a value that is neither [null] nor [undefined]. *)
Definition property (v : JSValue) (k : jsstring) : JSValue :=
  default JSUndefined (own_property v k).

(** The tags that stand for the sources of a message: one per element of
    an array, with its index as key. *)
Definition citation_tags (m : Message) : list Node :=
  match sources m with
  | Some (JSArray xs) =>
      imap (λ i x, Elem (js "span") [Key i; ClassName (js "sourceTag")]
                     [Expr (property x (js "source")); Expr (JSString (js "#"));
                      Expr (property x (js "chunk_id"))]) xs
  | _ => []
  end.

(** The message that the updater of the reply appends for a body whose
    properties can be read. *)
Definition reply_message (data : JSValue) : Message :=
  mkMessage bot
    (or_else (property data (js "answer")) (JSString (js "No response")))
    (Some (or_else (property data (js "sources")) (JSArray []))).


(** The message appended after an outcome, if one is. *)
Definition reply_of (out : Outcome) : option Message :=
  match out with
  | Decoded data => if object_like data then Some (reply_message data) else None
  | _ => Some error_message
  end.


(** Sample bodies and runs. *)
Definition paris_body : JSValue :=
  JSObject
    (<[js "sources" :=
         JSArray [JSObject
                    (<[js "chunk_id" :=
                         JSNumber (S754_finite false 6755399441055744 (-51))]>
                       {[ js "source" := JSString (js "doc1") ]})]]>
       {[ js "answer" := JSString (js "Paris") ]}).

(** A body whose [sources] is a string. *)
Definition string_sources_body : JSValue :=
  JSObject
    (<[js "sources" := JSString (js "doc1")]>
       {[ js "answer" := JSString (js "Paris") ]}).

Definition enter : KeyboardEvent := mkKeyboardEvent (js "Enter").

(** Two round trips, the second one typed while waiting for the first and
    failing. *)
Definition sample_run : list Event :=
  [Change ([0x20%N] ++ js "capital of France?"); KeyDown enter;
   Change (js "and of Italy?"); Settle (Decoded paris_body);
   Click; Settle (FetchRejected TypeError)].

(** A call that is waiting for its reply. *)
Definition waiting_run : list Event :=
  [Change (js "hi"); Click; Change (js "typing")].

Definition string_sources_run : list Event :=
  [Change (js "hi"); Click; Settle (Decoded string_sources_body)].

Section App.

(** [import.meta.env.VITE_BACKEND_URL]: a string, or [None] when unset. *)
Variable VITE_BACKEND_URL : option jsstring.

Definition BACKEND_URL : jsstring :=
  match VITE_BACKEND_URL with
  | Some u => if bool_decide (u = []) then js "http://localhost:8000" else u
  | None => js "http://localhost:8000"
  end.

(** The request of [sendMessage]; [body] is
    [JSON.stringify({ message: msg })]. *)
Definition chat_request (msg : jsstring) : Request :=
  mkRequest (BACKEND_URL ++ js "/chat") (js "POST")
    [(js "Content-Type", js "application/json")]
    ([0x7B%N] ++ QuoteJSONString (js "message") ++ [0x3A%N]
     ++ QuoteJSONString msg ++ [0x7D%N]).

(** [sendMessage], up to its first [await]. *)
Definition sendMessage (s : Session) : Session :=
  let msg := trim (input s) in
  if negb (ToBoolean (JSString msg)) || loading s then s
  else
    (setMessages (λ prev, prev ++ [user_message msg]) >>
     setInput [] >>
     setLoading true >>
     fetch (chat_request msg)) s.

(** The updater of the second [setMessages]:
    [(prev) => [...prev, { role: "bot", text: data.answer || "No response",
    sources: data.sources || [] }]].  The properties of [data] are read
    when the updater runs. *)
Definition reply_updater (data : JSValue) (prev : list Message)
    : JSError + list Message :=
  match Get data (js "answer") with
  | inl err => inl err
  | inr answer =>
      match Get data (js "sources") with
      | inl err => inl err
      | inr srcs =>
          inr (prev ++ [mkMessage bot
                          (or_else answer (JSString (js "No response")))
                          (Some (or_else srcs (JSArray [])))])
      end
  end.

(** [sendMessage] after its awaits: the rest of [try] when both promises
    resolved, [catch] when one of them rejected, and then [finally].
    Nothing in the rest of [try] throws, the updater being run later, so
    [catch] is entered by a rejection only. *)
Definition sendMessage_resume (out : Outcome) : Session → Session :=
  match out with
  | Decoded data => setMessages_throwing (reply_updater data)
  | FetchRejected err | JsonRejected err =>
      console_error err >>
      setMessages (λ prev, prev ++ [error_message])
  end >>
  setLoading false.

Definition handleKeyDown (e : KeyboardEvent) (s : Session) : Session :=
  if bool_decide (key e = js "Enter") then sendMessage s else s.

(** The oldest request in flight settles. *)
Definition settle (out : Outcome) (s : Session) : option Session :=
  match inflight s with
  | [] => None
  | req :: rest =>
      Some (sendMessage_resume out
              (record (Settled req out)
                 (mkSession (messages s) (input s) (loading s) rest (log s)
                    (thrown s))))
  end.

(** One event of the rendered page: [onChange] of the text box,
    [onKeyDown] of the text box, [onClick] of the button (which is
    [disabled] while [loading]), or the settling of a request. *)
Definition step (ev : Event) (s : Session) : option Session :=
  match ev with
  | Change value => Some (setInput value s)
  | KeyDown e => Some (handleKeyDown e s)
  | Click => Some (if loading s then s else sendMessage s)
  | Settle out => settle out s
  end.

Fixpoint run (evs : list Event) (s : Session) : option Session :=
  match evs with
  | [] => Some s
  | ev :: evs' =>
      match step ev s with
      | Some s' => run evs' s'
      | None => None
      end
  end.

(** [sendMessage] goes past its guard. *)
Definition accepted (s : Session) : Prop :=
  trim (input s) ≠ [] ∧ loading s = false.



(** What [App] returns for a session, or the exception thrown while the
    tree is built.  (It is built from the values of the state; the updaters
    that React runs before that are in [next_render].) *)
Definition render (s : Session) : JSError + Node :=
  match Array_map bubble_row 0 (messages s) with
  | inl err => inl err
  | inr rows =>
      inr (Elem (js "div") [ClassName (js "page")]
             [Elem (js "header") [ClassName (js "header")]
                [Elem (js "h2") []
                   [Expr (JSString (js "Jarvis (Self-hosted LLM + Pinecone)"))];
                 Elem (js "p") [ClassName (js "sub")]
                   [Expr (JSString (js "RAG Chatbot UI in React"))]];
              Elem (js "div") [ClassName (js "chat")] [Items rows];
              Elem (js "div") [ClassName (js "composer")]
                [Elem (js "input")
                   [Value (input s); OnChange setInput; OnKeyDown handleKeyDown;
                    Placeholder (js "Ask a question...")]
                   [];
                 Elem (js "button") [OnClick sendMessage; Disabled (loading s)]
                   [Expr (JSString
                            (if loading s then js "Thinking..." else js "Send"))]]])
  end.

(** How the next render of [App] ends: with the exception of an updater
    that threw, or else with the tree built from the state. *)
Definition next_render (s : Session) : JSError + Node :=
  match thrown s with
  | Some err => inl err
  | None => render s
  end.

(** While [loading], the one request in flight is the one for the last
    message of the transcript; otherwise none is. *)
Definition one_in_flight (s : Session) : Prop :=
  if loading s then
    ∃ msg, last (messages s) = Some (user_message msg)
           ∧ inflight s = [chat_request msg]
  else inflight s = [].

(** ** Serialisation of the request body *)

Section Quoting.

#[local] Open Scope N_scope.

Lemma hex_value_digit (n : N) : n < 16 → hex_value (hex_digit n) = Some n.
Proof.
  intros Hn. destruct n as [|p]; [reflexivity|].
  do 4 (try destruct p as [p|p|]); try reflexivity; lia.
Qed.

Lemma read_units_escape (c : N) (tail : jsstring) :
  c < 65536 → read_units (UnicodeEscape c ++ tail) = cons c <$> read_units tail.
Proof.
  intros Hc. unfold UnicodeEscape.
  change (read_units ([0x5C; 0x75; ?a; ?b; ?c; ?d] ++ tail))
    with (match read_hex4 a b c d with
          | Some u => cons u <$> read_units tail
          | None => None
          end).
  unfold read_hex4. rewrite !hex_value_digit by (apply N.mod_lt; lia).
  replace (4096 * (c / 4096 mod 16) + 256 * (c / 256 mod 16)
           + 16 * (c / 16 mod 16) + c mod 16) with c; [done|].
  zify. Z.to_euclidean_division_equations. lia.
Qed.

Lemma read_units_plain (c : N) (tail : jsstring) :
  c ≠ 0x5C → c ≠ 0x22 → 0x20 <= c →
  read_units (c :: tail) = cons c <$> read_units tail.
Proof.
  intros H1 H2 H3. cbn [read_units].
  rewrite (proj2 (N.eqb_neq _ _) H1), (proj2 (N.eqb_neq _ _) H2).
  by rewrite (proj2 (N.ltb_ge _ _) H3).
Qed.

Lemma read_quote_unit (c : N) (tail : jsstring) :
  read_units (quote_unit c ++ tail) = cons c <$> read_units tail.
Proof.
  unfold quote_unit.
  destruct (N.eqb_spec c 0x08) as [-> | ?]; [reflexivity|].
  destruct (N.eqb_spec c 0x09) as [-> | ?]; [reflexivity|].
  destruct (N.eqb_spec c 0x0A) as [-> | ?]; [reflexivity|].
  destruct (N.eqb_spec c 0x0C) as [-> | ?]; [reflexivity|].
  destruct (N.eqb_spec c 0x0D) as [-> | ?]; [reflexivity|].
  destruct (N.eqb_spec c 0x22) as [-> | ?]; [reflexivity|].
  destruct (N.eqb_spec c 0x5C) as [-> | ?]; [reflexivity|].
  destruct (_ || _ || _) eqn:Hesc.
  - apply read_units_escape.
    unfold is_leading_surrogate, is_trailing_surrogate in Hesc.
    rewrite !orb_true_iff, !andb_true_iff, N.ltb_lt, !N.leb_le in Hesc. lia.
  - apply read_units_plain; try done.
    rewrite !orb_false_iff, N.ltb_ge in Hesc. lia.
Qed.

Lemma quote_units_cons (c : N) (rest : jsstring) :
  quote_units (c :: rest) =
    if is_leading_surrogate c then
      match rest with
      | d :: rest' =>
          if is_trailing_surrogate d then c :: d :: quote_units rest'
          else quote_unit c ++ quote_units rest
      | [] => quote_unit c
      end
    else quote_unit c ++ quote_units rest.
Proof. by destruct rest. Qed.

Lemma read_quote_units (s : jsstring) : read_units (quote_units s) = Some s.
Proof.
  cut (read_units (quote_units s) = Some s
       ∧ ∀ c, read_units (quote_units (c :: s)) = Some (c :: s)); [tauto|].
  induction s as [|d s [IH1 IH2]].
  - split; [done|]. intros c. rewrite quote_units_cons.
    destruct (is_leading_surrogate c);
      [rewrite <- (app_nil_r (quote_unit c))|]; by rewrite read_quote_unit.
  - split; [apply IH2|]. intros c. rewrite (quote_units_cons c).
    destruct (is_leading_surrogate c) eqn:Hc.
    + destruct (is_trailing_surrogate d) eqn:Hd.
      * unfold is_leading_surrogate, is_trailing_surrogate in *.
        rewrite !andb_true_iff, !N.leb_le in Hc, Hd.
        rewrite !read_units_plain, IH1 by lia. done.
      * by rewrite read_quote_unit, IH2.
    + by rewrite read_quote_unit, IH2.
Qed.

Example QuoteJSONString_example :
  QuoteJSONString (js "a" ++ [0x22; 0x0A; 0x01; 0xD83D; 0xDE00; 0xDE00])
  = [0x22] ++ js "a" ++ [0x5C; 0x22; 0x5C] ++ js "n" ++ [0x5C] ++ js "u0001"
    ++ [0xD83D; 0xDE00; 0x5C] ++ js "ude00" ++ [0x22].
Proof. reflexivity. Qed.

Lemma QuoteJSONString_inj (s1 s2 : jsstring) :
  QuoteJSONString s1 = QuoteJSONString s2 → s1 = s2.
Proof.
  unfold QuoteJSONString. intros H.
  apply app_inv_head, app_inv_tail in H.
  apply (f_equal read_units) in H. rewrite !read_quote_units in H.
  by injection H.
Qed.

End Quoting.

Lemma chat_request_body_inj (msg1 msg2 : jsstring) :
  body (chat_request msg1) = body (chat_request msg2) → msg1 = msg2.
Proof.
  cbn [body chat_request]. intros H.
  apply app_inv_head, app_inv_head, app_inv_head, app_inv_tail in H.
  by apply QuoteJSONString_inj.
Qed.

(** ** The handlers, one call at a time *)

Example trim_example :
  trim ([0x20; 0x09] ++ js "hi  there" ++ [0x0A; 0xA0])%N = js "hi  there".
Proof. reflexivity. Qed.

Lemma sendMessage_guard (s : Session) :
  trim (input s) = [] ∨ loading s = true → sendMessage s = s.
Proof.
  intros H. unfold sendMessage. cbv zeta. unfold ToBoolean.
  destruct H as [H | H]; rewrite H.
  - by rewrite bool_decide_true.
  - by rewrite orb_true_r.
Qed.

Lemma sendMessage_accepted (s : Session) :
  accepted s →
  sendMessage s =
    let msg := trim (input s) in
    mkSession (messages s ++ [user_message msg]) [] true
      (inflight s ++ [chat_request msg])
      (log s ++ [SetMessages (messages s ++ [user_message msg]);
                 SetInput []; SetLoading true; Fetch (chat_request msg)])
      (thrown s).
Proof.
  intros [Hmsg Hidle]. unfold sendMessage. cbv zeta. unfold ToBoolean.
  rewrite bool_decide_false, Hidle by done. cbn.
  unfold fetch, setLoading, setInput, setMessages, record. cbn.
  by rewrite <- !app_assoc.
Qed.

Lemma reply_updater_eq (data : JSValue) (prev : list Message) :
  reply_updater data prev =
    if object_like data then inr (prev ++ [reply_message data])
    else inl TypeError.
Proof.
  unfold reply_updater, reply_message, property, own_property, Get.
  by destruct data.
Qed.

Lemma sendMessage_resume_eq (out : Outcome) (s : Session) :
  sendMessage_resume out s =
    match out with
    | Decoded data =>
        if object_like data then
          mkSession (messages s ++ [reply_message data]) (input s) false
            (inflight s)
            (log s ++ [SetMessages (messages s ++ [reply_message data]);
                       SetLoading false])
            (thrown s)
        else
          mkSession (messages s) (input s) false (inflight s)
            (log s ++ [SetLoading false])
            (match thrown s with Some first => Some first | None => Some TypeError end)
    | FetchRejected err | JsonRejected err =>
        mkSession (messages s ++ [error_message]) (input s) false (inflight s)
          (log s ++ [ConsoleError err;
                     SetMessages (messages s ++ [error_message]);
                     SetLoading false])
          (thrown s)
    end.
Proof.
  unfold sendMessage_resume. destruct out as [err | err | data];
    [unfold setLoading, setMessages, console_error, record; cbn;
     by rewrite <- !app_assoc..|].
  unfold setMessages_throwing. rewrite reply_updater_eq.
  destruct (object_like data);
    unfold setLoading, setMessages, record; cbn; by rewrite <- ?app_assoc.
Qed.

(** What the resumed handler does to each part of the session. *)
Lemma sendMessage_resume_parts (out : Outcome) (s : Session) :
  messages (sendMessage_resume out s) = messages s ++ option_list (reply_of out)
  ∧ input (sendMessage_resume out s) = input s
  ∧ loading (sendMessage_resume out s) = false
  ∧ inflight (sendMessage_resume out s) = inflight s
  ∧ fetches (log (sendMessage_resume out s)) = fetches (log s).
Proof.
  rewrite sendMessage_resume_eq. unfold fetches, reply_of.
  destruct out as [err | err | data]; [| |destruct (object_like data)];
    cbn [option_list messages input loading inflight log];
    rewrite omap_app, ?app_nil_r; cbn; rewrite ?app_nil_r; by repeat split.
Qed.

Lemma reply_of_bot (out : Outcome) (reply : Message) :
  reply_of out = Some reply → role reply = bot.
Proof.
  destruct out as [| | data]; cbn; [by intros [= <-]..|].
  destruct (object_like data); [by intros [= <-] | done].
Qed.


(** C1. A call of [sendMessage] whose trimmed input is empty, or that is
    made while [loading] is true, changes nothing: the transcript, the
    text box, the flag, the requests in flight and the log of writes and
    requests are all as before. *)
Theorem sendMessage_noop (s : Session) :
  trim (input s) = [] ∨ loading s = true →
  sendMessage s = s
  ∧ messages (sendMessage s) = messages s
  ∧ input (sendMessage s) = input s
  ∧ loading (sendMessage s) = loading s
  ∧ fetches (log (sendMessage s)) = fetches (log s).
Proof.
  intros H. by rewrite (sendMessage_guard s H).
Qed.

(** C4, as the code has it.  An accepted call appends the message
    [{ role: "user", text: msg }], an object without a [sources]
    property, to the end of the transcript, empties the text box and
    sets [loading]. *)
Theorem sendMessage_synchronous_phase (s : Session) :
  accepted s →
  messages (sendMessage s)
    = messages s ++ [mkMessage user (JSString (trim (input s))) None]
  ∧ input (sendMessage s) = []
  ∧ loading (sendMessage s) = true.
Proof.
  intros H. by rewrite (sendMessage_accepted s H).
Qed.

(** ** While a request is in flight *)

Lemma fetches_snoc (l : list Effect) (e : Effect) :
  fetches (l ++ [e]) = fetches l ++ match e with Fetch req => [req] | _ => [] end.
Proof.
  unfold fetches. rewrite omap_app. by destruct e.
Qed.

Lemma handleKeyDown_busy (e : KeyboardEvent) (s : Session) :
  loading s = true → handleKeyDown e s = s.
Proof.
  intros H. unfold handleKeyDown. case_bool_decide; [|done].
  apply sendMessage_guard. by right.
Qed.

(** No event of the page other than the settling of the request gets past
    the [loading] guard. *)
Lemma ui_step_busy (ev : Event) (s s' : Session) :
  loading s = true → is_ui ev = true → step ev s = Some s' →
  messages s' = messages s ∧ loading s' = true
  ∧ inflight s' = inflight s ∧ fetches (log s') = fetches (log s).
Proof.
  intros Hbusy Hui Hstep. destruct ev as [value | e | | out]; cbn in *.
  - injection Hstep as <-. cbn. rewrite fetches_snoc, app_nil_r. auto.
  - injection Hstep as <-. rewrite handleKeyDown_busy by done. auto.
  - rewrite Hbusy in Hstep. injection Hstep as <-. auto.
  - discriminate.
Qed.

Lemma ui_run_busy (evs : list Event) (s s' : Session) :
  loading s = true → forallb is_ui evs = true → run evs s = Some s' →
  messages s' = messages s ∧ loading s' = true
  ∧ inflight s' = inflight s ∧ fetches (log s') = fetches (log s).
Proof.
  revert s. induction evs as [|ev evs IH]; intros s Hbusy Hui Hrun; cbn in *.
  - injection Hrun as <-. auto.
  - apply andb_prop in Hui as [Hev Hevs].
    destruct (step ev s) as [s1|] eqn:Hstep; [|discriminate].
    destruct (ui_step_busy ev s s1) as (Hm & Hl & Hi & Hf); [done..|].
    destruct (IH s1) as (Hm' & Hl' & Hi' & Hf'); [done..|].
    rewrite Hm', Hi', Hf'. auto.
Qed.

Lemma settle_some (out : Outcome) (s : Session) (req : Request) (rest : list Request) :
  inflight s = req :: rest →
  step (Settle out) s =
    Some (sendMessage_resume out
            (mkSession (messages s) (input s) (loading s) rest
               (log s ++ [Settled req out])
               (thrown s))).
Proof.
  intros H. cbn. unfold settle. by rewrite H.
Qed.

Lemma settle_inv (out : Outcome) (s s' : Session) :
  step (Settle out) s = Some s' →
  ∃ req rest, inflight s = req :: rest
    ∧ s' = sendMessage_resume out
             (mkSession (messages s) (input s) (loading s) rest
                (log s ++ [Settled req out])
                (thrown s)).
Proof.
  cbn. unfold settle. destruct (inflight s) as [|req rest]; [done|].
  intros [= <-]. eauto.
Qed.

(** What an accepted call leaves behind, whatever the page does before the
    request settles. *)
Lemma waiting_state (s : Session) (evs : list Event) (s' : Session) :
  accepted s → forallb is_ui evs = true → run evs (sendMessage s) = Some s' →
  messages s' = messages s ++ [user_message (trim (input s))]
  ∧ loading s' = true
  ∧ inflight s' = inflight s ++ [chat_request (trim (input s))]
  ∧ fetches (log s') = fetches (log s) ++ [chat_request (trim (input s))].
Proof.
  intros Hacc Hui Hrun.
  destruct (ui_run_busy evs (sendMessage s) s') as (Hm & Hl & Hi & Hf);
    [by rewrite sendMessage_accepted | done..|].
  rewrite Hm, Hi, Hf, sendMessage_accepted by done. cbn.
  repeat split; try done.
  unfold fetches. by rewrite omap_app.
Qed.

(** ** One round trip *)

(** C2. An accepted call sets [loading] before it returns; the flag stays
    set whatever the page delivers while the request is in flight; and
    whichever way the request settles ([fetch] rejected, body not decodable,
    body decoded), the resumed handler leaves [loading] false. *)
Theorem loading_brackets_the_request (s : Session) :
  accepted s →
  loading (sendMessage s) = true
  ∧ ∀ evs s', forallb is_ui evs = true → run evs (sendMessage s) = Some s' →
      loading s' = true
      ∧ ∀ out, ∃ s'', step (Settle out) s' = Some s'' ∧ loading s'' = false.
Proof.
  intros Hacc. split; [by rewrite sendMessage_accepted|].
  intros evs s' Hui Hrun.
  destruct (waiting_state s evs s') as (_ & Hl & Hi & _); [done..|].
  split; [done|]. intros out.
  destruct (inflight s') as [|req rest] eqn:Hin;
    [by destruct (inflight s)|].
  rewrite (settle_some out s' req rest Hin). eexists. split; [done|].
  by destruct (sendMessage_resume_parts out
    (mkSession (messages s') (input s') (loading s') rest
       (log s' ++ [Settled req out])
       (thrown s'))) as (_ & _ & -> & _).
Qed.

(** C3, as the code has it.  When the request of an accepted call fails
    ([fetch] rejects or the body cannot be decoded), the resumed handler
    appends exactly one message, [{ role: "bot", text: "Error: ..." }], an
    object without a [sources] property, right after the user message;
    [loading] is false again; and a later call with non-blank input is
    accepted: it appends its user message and dispatches its request. *)
Theorem failed_request_reply (s : Session) (evs : list Event) (s' : Session)
    (out : Outcome) :
  accepted s → forallb is_ui evs = true → run evs (sendMessage s) = Some s' →
  is_failure out = true →
  ∃ s'', step (Settle out) s' = Some s''
    ∧ messages s'' =
        messages s
        ++ [mkMessage user (JSString (trim (input s))) None;
            mkMessage bot
              (JSString
                 (js "Error: Could not reach backend. Is it running on port 8000?"))
              None]
    ∧ loading s'' = false
    ∧ ∀ value, trim value ≠ [] →
        let s3 := sendMessage (setInput value s'') in
        messages s3 = messages s'' ++ [user_message (trim value)]
        ∧ fetches (log s3) = fetches (log s'') ++ [chat_request (trim value)].
Proof.
  intros Hacc Hui Hrun Hfail.
  destruct (waiting_state s evs s') as (Hm & Hl & Hi & _); [done..|].
  destruct (inflight s') as [|req rest] eqn:Hin;
    [by destruct (inflight s)|].
  rewrite (settle_some out s' req rest Hin). eexists. split; [done|].
  rewrite sendMessage_resume_eq.
  destruct out as [err | err | data]; [| |discriminate]; cbn;
    (split; [by rewrite Hm, <- app_assoc|]; split; [done|];
     intros value Hvalue; rewrite sendMessage_accepted by (by split); cbn;
     split; [done|]; unfold fetches;
     rewrite (omap_app _ (_ ++ [SetInput value]));
     rewrite (omap_app _ _ [SetInput value]); cbn; by rewrite app_nil_r).
Qed.

(** C5, as the code has it.  When the body decodes to a value other than
    [null], the resumed handler appends a [bot] message whose text is
    [data.answer] if that property is present and truthy and the string
    "No response" otherwise, and whose [sources] is [data.sources] if that
    property is present and truthy and the empty array otherwise. *)
Theorem decoded_reply (data : JSValue) (s s' : Session) :
  data ≠ JSNull → data ≠ JSUndefined →
  step (Settle (Decoded data)) s = Some s' →
  messages s' =
    messages s
    ++ [mkMessage bot
          match own_property data (js "answer") with
          | Some answer =>
              if ToBoolean answer then answer else JSString (js "No response")
          | None => JSString (js "No response")
          end
          (Some
             match own_property data (js "sources") with
             | Some srcs => if ToBoolean srcs then srcs else JSArray []
             | None => JSArray []
             end)].
Proof.
  intros Hnull Hundef Hstep.
  apply settle_inv in Hstep as (req & rest & _ & ->).
  rewrite sendMessage_resume_eq.
  unfold reply_message, property, own_property, or_else.
  destruct data as [| | b | x | str | xs | props]; try done.
  cbn [object_like messages].
  by destruct (props !! js "answer"), (props !! js "sources").
Qed.

(** C10. When the body decodes to an object whose [answer] property is
    present but falsy (the empty string, [null], [false], [0]) the text of
    the appended [bot] message is "No response"; when its [sources]
    property is present but falsy, the [sources] of the appended message is
    the empty array. *)
Theorem falsy_fields_fall_back (props : gmap jsstring JSValue) (s s' : Session) :
  step (Settle (Decoded (JSObject props))) s = Some s' →
  ∃ reply, messages s' = messages s ++ [reply] ∧ role reply = bot
    ∧ (∀ answer, props !! js "answer" = Some answer → ToBoolean answer = false →
         text reply = JSString (js "No response"))
    ∧ (∀ srcs, props !! js "sources" = Some srcs → ToBoolean srcs = false →
         sources reply = Some (JSArray [])).
Proof.
  intros Hstep. apply settle_inv in Hstep as (req & rest & _ & ->).
  rewrite sendMessage_resume_eq. cbn [object_like messages].
  eexists. split; [done|]. split; [done|].
  unfold reply_message, property, own_property, or_else. cbn [text sources].
  split; [intros answer | intros srcs]; intros -> Hfalsy;
    cbn [default from_option id]; by rewrite Hfalsy.
Qed.

(** C7. An accepted call first writes the user message to the transcript
    and only then dispatches its request, the only one it dispatches: a
    POST whose body is [{ "message": msg }] serialised, [msg] being the
    trimmed input, which the body determines.  Until that request settles
    no reply is appended and no other request is sent.  When it settles
    the resumed handler sends nothing, and whatever it writes it writes
    after the settling: for every outcome but a body that decodes to
    [null] it appends one [bot] message, directly after the user message;
    for a [null] body it appends none.  (No request is in flight when the
    call is made: see [reachable_inflight].) *)
Theorem request_ordering (s : Session) :
  accepted s → inflight s = [] →
  let msg := trim (input s) in
  let req := chat_request msg in
  method req = js "POST"
  ∧ body req =
      [0x7B%N] ++ QuoteJSONString (js "message") ++ [0x3A%N]
      ++ QuoteJSONString msg ++ [0x7D%N]
  ∧ (∀ msg', body (chat_request msg') = body req → msg' = msg)
  ∧ log (sendMessage s) =
      log s ++ [SetMessages (messages s ++ [user_message msg]);
                SetInput []; SetLoading true; Fetch req]
  ∧ ∀ evs s', forallb is_ui evs = true → run evs (sendMessage s) = Some s' →
      messages s' = messages s ++ [user_message msg]
      ∧ fetches (log s') = fetches (log s) ++ [req]
      ∧ ∀ out, ∃ s'' pre,
          step (Settle out) s' = Some s''
          ∧ fetches (log s'') = fetches (log s) ++ [req]
          ∧ match reply_of out with
            | Some reply =>
                role reply = bot
                ∧ messages s'' = messages s ++ [user_message msg; reply]
                ∧ log s'' =
                    log s' ++ [Settled req out] ++ pre
                    ++ [SetMessages (messages s ++ [user_message msg; reply]);
                        SetLoading false]
            | None =>
                (out = Decoded JSNull ∨ out = Decoded JSUndefined)
                ∧ messages s'' = messages s ++ [user_message msg]
                ∧ log s'' = log s' ++ [Settled req out; SetLoading false]
            end.
Proof.
  intros Hacc Hnone msg req. split; [done|]. split; [done|].
  split; [intros msg'; apply chat_request_body_inj|].
  split; [by rewrite sendMessage_accepted|].
  intros evs s' Hui Hrun.
  destruct (waiting_state s evs s') as (Hm & Hl & Hi & Hf); [done..|].
  split; [done|]. split; [done|]. intros out.
  rewrite Hnone in Hi. cbn in Hi.
  rewrite (settle_some out s' _ [] Hi), sendMessage_resume_eq.
  assert (∀ l : list Effect,
            fetches ((log s' ++ [Settled req out]) ++ l)
            = fetches (log s) ++ [req] ++ fetches l) as Hfetch.
  { intros l. unfold fetches in *.
    rewrite omap_app, omap_app, Hf. cbn. by rewrite app_nil_r, <- app_assoc. }
  destruct out as [err | err | data]; cbn [reply_of].
  - eexists _, [ConsoleError err]. split; [done|]. cbn.
    rewrite Hfetch, Hm, <- !app_assoc. by cbn.
  - eexists _, [ConsoleError err]. split; [done|]. cbn.
    rewrite Hfetch, Hm, <- !app_assoc. by cbn.
  - destruct (object_like data) eqn:Hdata.
    + eexists _, []. split; [done|]. cbn.
      rewrite Hfetch, Hm, <- !app_assoc. by cbn.
    + eexists _, []. split; [done|]. cbn.
      rewrite Hfetch, Hm, <- !app_assoc. cbn.
      split; [done|]. split; [|done]. by destruct data; auto.
Qed.

(** C8. A key-down event whose key is "Enter" does exactly what a call of
    [sendMessage] does on the same session; a key-down event with any other
    key leaves the session as it is. *)
Theorem handleKeyDown_is_sendMessage (e : KeyboardEvent) (s : Session) :
  (key e = js "Enter" →
     handleKeyDown e s = sendMessage s
     ∧ step (KeyDown e) s = Some (sendMessage s))
  ∧ (key e ≠ js "Enter" →
     handleKeyDown e s = s ∧ step (KeyDown e) s = Some s).
Proof.
  cbn. unfold handleKeyDown. split; intros H.
  - by rewrite bool_decide_true.
  - by rewrite bool_decide_false.
Qed.

(** ** Whole sessions *)

Lemma step_prefix (ev : Event) (s s' : Session) :
  step ev s = Some s' → messages s `prefix_of` messages s'.
Proof.
  destruct ev as [value | e | | out].
  - intros [= <-]. done.
  - intros [= <-]. unfold handleKeyDown, sendMessage. cbv zeta.
    repeat case_match; cbn; try done. by apply prefix_app_r.
  - intros [= <-]. unfold sendMessage. cbv zeta.
    repeat case_match; cbn; try done. by apply prefix_app_r.
  - intros Hstep. apply settle_inv in Hstep as (req & rest & _ & ->).
    destruct (sendMessage_resume_parts out
      (mkSession (messages s) (input s) (loading s) rest
         (log s ++ [Settled req out])
         (thrown s))) as (-> & _).
    cbn. by apply prefix_app_r.
Qed.

Lemma run_prefix (evs : list Event) (s s' : Session) :
  run evs s = Some s' → messages s `prefix_of` messages s'.
Proof.
  revert s. induction evs as [|ev evs IH]; intros s; cbn.
  - by intros [= <-].
  - destruct (step ev s) as [s1|] eqn:Hstep; [|done].
    intros Hrun. etrans; [by eapply step_prefix | by apply IH].
Qed.

(** C9. The transcript starts as the single greeting, a [bot] message, and
    every event of the page, the settling of a request included, leaves the
    previous transcript as a prefix of the new one; so does every run. *)
Theorem transcript_append_only :
  messages init = [greeting] ∧ role greeting = bot
  ∧ (∀ ev s s', step ev s = Some s' → messages s `prefix_of` messages s')
  ∧ (∀ evs s', run evs init = Some s' → [greeting] `prefix_of` messages s').
Proof.
  split; [done|]. split; [done|]. split; [apply step_prefix|].
  intros evs s'. apply run_prefix.
Qed.

Lemma sendMessage_cases (s : Session) :
  sendMessage s = s ∨ accepted s.
Proof.
  destruct (decide (trim (input s) = [])) as [Hempty | Hmsg].
  - left. apply sendMessage_guard. by left.
  - destruct (loading s) eqn:Hbusy.
    + left. apply sendMessage_guard. by right.
    + by right.
Qed.









(** ** Invariants of a session *)

Lemma run_invariant (P : Session → Prop) (evs : list Event) (s s' : Session) :
  (∀ ev s1 s2, P s1 → step ev s1 = Some s2 → P s2) →
  P s → run evs s = Some s' → P s'.
Proof.
  intros Hstep. revert s. induction evs as [|ev evs IH]; intros s HP; cbn.
  - by intros [= <-].
  - destruct (step ev s) as [s1|] eqn:Hs; [|done]. eauto.
Qed.

(** What one event can do to a session. *)
Lemma step_cases (ev : Event) (s s' : Session) :
  step ev s = Some s' →
  s' = s
  ∨ (∃ value, s' = setInput value s)
  ∨ (accepted s ∧ s' = sendMessage s)
  ∨ (∃ out req rest, inflight s = req :: rest
       ∧ s' = sendMessage_resume out
                (mkSession (messages s) (input s) (loading s) rest
                   (log s ++ [Settled req out])
                   (thrown s))).
Proof.
  destruct ev as [value | e | | out].
  - intros [= <-]. eauto.
  - intros [= <-]. unfold handleKeyDown. case_bool_decide; [|by left].
    destruct (sendMessage_cases s) as [-> | ?]; eauto.
  - intros [= <-]. destruct (loading s); [by left|].
    destruct (sendMessage_cases s) as [-> | ?]; eauto.
  - intros Hs. apply settle_inv in Hs as (req & rest & ? & ->).
    do 3 right. eauto.
Qed.

Lemma one_in_flight_step (ev : Event) (s s' : Session) :
  one_in_flight s → step ev s = Some s' → one_in_flight s'.
Proof.
  intros Hinv Hs.
  destruct (step_cases ev s s' Hs)
    as [-> | [[value ->] | [[Hacc ->] | (out & req & rest & Hin & ->)]]];
    [done | done | |].
  - rewrite sendMessage_accepted by done. destruct Hacc as [_ Hidle].
    unfold one_in_flight in *. rewrite Hidle in Hinv. cbn.
    exists (trim (input s)). by rewrite last_snoc, Hinv.
  - unfold one_in_flight in *. rewrite sendMessage_resume_eq.
    destruct (loading s); [|by rewrite Hin in Hinv].
    destruct Hinv as (msg & _ & Hone). rewrite Hin in Hone.
    injection Hone as _ ->.
    destruct out as [| | data]; [done..|]. by destruct (object_like data).
Qed.

(** At rest nothing is in flight, and while [loading] exactly one request
    is. *)
Lemma reachable_inflight (evs : list Event) (s : Session) :
  run evs init = Some s →
  length (inflight s) = (if loading s then 1 else 0).
Proof.
  intros Hrun.
  assert (one_in_flight s) as Hinv.
  { apply (run_invariant one_in_flight evs init); [|done..].
    intros ev s1 s2. apply one_in_flight_step. }
  unfold one_in_flight in Hinv. destruct (loading s).
  - by destruct Hinv as (msg & _ & ->).
  - by rewrite Hinv.
Qed.

(** An exception left by an updater stays. *)
Lemma step_thrown (ev : Event) (s s' : Session) (err : JSError) :
  thrown s = Some err → step ev s = Some s' → thrown s' = Some err.
Proof.
  intros Hthrown Hs.
  destruct (step_cases ev s s' Hs)
    as [-> | [[value ->] | [[Hacc ->] | (out & req & rest & Hin & ->)]]];
    [done | done | |].
  - by rewrite sendMessage_accepted.
  - rewrite sendMessage_resume_eq.
    destruct out as [| | data]; [done..|].
    destruct (object_like data); cbn; [done|]. by rewrite Hthrown.
Qed.

Lemma run_thrown (evs : list Event) (s s' : Session) (err : JSError) :
  thrown s = Some err → run evs s = Some s' → thrown s' = Some err.
Proof.
  intros Hthrown.
  apply (run_invariant (λ s, thrown s = Some err)); [|done].
  intros ev s1 s2 H1. by apply step_thrown.
Qed.

(** X1. In every session reachable from the initial one at most one
    request is in flight.  While [loading] is true it is exactly the
    request for the last message of the transcript, a user message; while
    [loading] is false none is in flight and nothing can settle. *)
Theorem one_request_at_a_time (evs : list Event) (s : Session) :
  run evs init = Some s →
  (loading s = true →
     ∃ msg, last (messages s) = Some (user_message msg)
            ∧ inflight s = [chat_request msg])
  ∧ (loading s = false →
     inflight s = [] ∧ ∀ out, step (Settle out) s = None).
Proof.
  intros Hrun.
  assert (one_in_flight s) as Hinv.
  { apply (run_invariant one_in_flight evs init); [|done..].
    intros ev s1 s2. apply one_in_flight_step. }
  unfold one_in_flight in Hinv.
  split; intros Hl; rewrite Hl in Hinv; [done|].
  split; [done|]. intros out. cbn. unfold settle. by rewrite Hinv.
Qed.

Lemma sent_texts_snoc (ms : list Message) (m : Message) :
  sent_texts (ms ++ [m]) =
    sent_texts ms ++ match role m, text m with
                     | user, JSString t => [t]
                     | _, _ => []
                     end.
Proof.
  unfold sent_texts. rewrite omap_app. cbn.
  by destruct (role m), (text m).
Qed.

(** X2. In every reachable session the requests dispatched so far are,
    in order, the requests for the texts of the user messages of the
    transcript: each user message was sent exactly once, and nothing else
    was ever sent. *)
Theorem requests_match_user_messages (evs : list Event) (s : Session) :
  run evs init = Some s →
  fetches (log s) = chat_request <$> sent_texts (messages s).
Proof.
  apply (run_invariant
           (λ s, fetches (log s) = chat_request <$> sent_texts (messages s)));
    [|done].
  intros ev s1 s2 Hinv Hs.
  destruct (step_cases ev s1 s2 Hs)
    as [-> | [[value ->] | [[Hacc ->] | (out & req & rest & Hin & ->)]]];
    [done | | |].
  - cbn. by rewrite fetches_snoc, app_nil_r.
  - rewrite sendMessage_accepted by done. cbn.
    rewrite sent_texts_snoc, fmap_app, <- Hinv. cbn.
    unfold fetches. by rewrite omap_app.
  - destruct (sendMessage_resume_parts out
      (mkSession (messages s1) (input s1) (loading s1) rest
         (log s1 ++ [Settled req out])
         (thrown s1))) as (-> & _ & _ & _ & ->).
    cbn. rewrite fetches_snoc, app_nil_r.
    destruct (reply_of out) as [reply|] eqn:Hreply; cbn;
      [|by rewrite app_nil_r].
    rewrite sent_texts_snoc, (reply_of_bot out reply Hreply).
    by rewrite app_nil_r.
Qed.

(** *** Trimming *)

Lemma drop_while_head {A} (p : A → bool) (l : list A) (x : A) :
  head (drop_while p l) = Some x → p x = false.
Proof.
  induction l as [|y l IH]; cbn; [done|].
  destruct (p y) eqn:Hy; [done|]. cbn. by intros [= <-].
Qed.

Lemma drop_while_last {A} (p : A → bool) (l : list A) :
  drop_while p l ≠ [] → last (drop_while p l) = last l.
Proof.
  induction l as [|y l IH]; cbn; [done|].
  destruct (p y) eqn:Hy; [|done].
  intros Hne. rewrite IH by done.
  destruct l; [done|]. done.
Qed.

Lemma trim_trimmed (s : jsstring) : trim s ≠ [] → trimmed (trim s).
Proof.
  unfold trim, trimEnd, trimStart. intros Hne. split; [done|].
  assert (drop_while is_trimmable (reverse (drop_while is_trimmable s)) ≠ [])
    as Hne'.
  { intros H. by rewrite H in Hne. }
  split; intros c.
  - rewrite head_reverse, drop_while_last, last_reverse by done.
    apply drop_while_head.
  - rewrite last_reverse. apply drop_while_head.
Qed.

(** X3. In every reachable session the text of every user message of
    the transcript is a non-empty string with no white space or line
    terminator at either end. *)
Theorem user_messages_are_trimmed (evs : list Event) (s : Session) :
  run evs init = Some s →
  ∀ m, m ∈ messages s → role m = user →
    ∃ t, text m = JSString t ∧ trimmed t.
Proof.
  apply (run_invariant
           (λ s, ∀ m, m ∈ messages s → role m = user →
                   ∃ t, text m = JSString t ∧ trimmed t));
    [|by intros m ->%list_elem_of_singleton].
  intros ev s1 s2 Hinv Hs.
  destruct (step_cases ev s1 s2 Hs)
    as [-> | [[value ->] | [[Hacc ->] | (out & req & rest & Hin & ->)]]];
    [done | done | |].
  - rewrite sendMessage_accepted by done. cbn.
    intros m [Hm | ->%list_elem_of_singleton]%elem_of_app Hrole; [eauto|].
    eexists. split; [done|]. apply trim_trimmed, Hacc.
  - destruct (sendMessage_resume_parts out
      (mkSession (messages s1) (input s1) (loading s1) rest
         (log s1 ++ [Settled req out])
         (thrown s1))) as (-> & _).
    cbn. intros m [Hm | Hm]%elem_of_app Hu; [eauto|].
    destruct (reply_of out) as [reply|] eqn:Hreply; cbn in Hm;
      [|by apply elem_of_nil in Hm].
    apply list_elem_of_singleton in Hm as ->.
    by rewrite (reply_of_bot out reply Hreply) in Hu.
Qed.

Lemma reply_of_truthy (out : Outcome) (reply : Message) :
  reply_of out = Some reply → ToBoolean (text reply) = true.
Proof.
  destruct out as [| | data]; cbn; [by intros [= <-]..|].
  destruct (object_like data); [|done]. intros [= <-].
  unfold reply_message, or_else. cbn [text].
  by destruct (ToBoolean (property data (js "answer"))) eqn:H.
Qed.

(** X4. In every reachable session no message of the transcript has a
    falsy text (empty, [null], [false], zero or absent): the greeting and
    the error text are non-empty, a user message is sent only if its text
    is non-empty, and a falsy answer is replaced. *)
Theorem texts_are_truthy (evs : list Event) (s : Session) :
  run evs init = Some s →
  ∀ m, m ∈ messages s → ToBoolean (text m) = true.
Proof.
  apply (run_invariant (λ s, ∀ m, m ∈ messages s → ToBoolean (text m) = true));
    [|by intros m ->%list_elem_of_singleton].
  intros ev s1 s2 Hinv Hs.
  destruct (step_cases ev s1 s2 Hs)
    as [-> | [[value ->] | [[Hacc ->] | (out & req & rest & Hin & ->)]]];
    [done | done | |].
  - rewrite sendMessage_accepted by done. cbn.
    intros m [Hm | ->%list_elem_of_singleton]%elem_of_app; [eauto|].
    cbn. destruct Hacc as [Hmsg _]. by rewrite bool_decide_false.
  - destruct (sendMessage_resume_parts out
      (mkSession (messages s1) (input s1) (loading s1) rest
         (log s1 ++ [Settled req out])
         (thrown s1))) as (-> & _).
    cbn. intros m [Hm | Hm]%elem_of_app; [eauto|].
    destruct (reply_of out) as [reply|] eqn:Hreply; cbn in Hm;
      [|by apply elem_of_nil in Hm].
    apply list_elem_of_singleton in Hm as ->.
    by apply (reply_of_truthy out).
Qed.

(** X5. The settling of a request, with any outcome, leaves the text box
    as it is: what was typed while waiting is still there. *)
Theorem settle_keeps_input (out : Outcome) (s s' : Session) :
  step (Settle out) s = Some s' → input s' = input s.
Proof.
  intros Hs. apply settle_inv in Hs as (req & rest & _ & ->).
  by destruct (sendMessage_resume_parts out
    (mkSession (messages s) (input s) (loading s) rest
       (log s ++ [Settled req out])
       (thrown s))) as (_ & -> & _).
Qed.

(** X6. A click on the button and a key-down of Enter in the text box do
    the same to every session, also while the button is disabled. *)
Theorem click_is_enter (e : KeyboardEvent) (s : Session) :
  key e = js "Enter" → step Click s = step (KeyDown e) s.
Proof.
  intros He. cbn. unfold handleKeyDown. rewrite bool_decide_true by done.
  destruct (loading s) eqn:Hl; [|done].
  by rewrite sendMessage_guard by by right.
Qed.

(** X7. A body that decodes to [null] is not caught.  [data.answer] is
    read by the updater, which React runs later, so nothing throws inside
    [try]: the handler appends no message, does not call [console.error]
    and clears [loading].  The render that runs the updater ends with a
    [TypeError], and so does every later one. *)
Theorem null_body_is_not_caught (s s' : Session) :
  thrown s = None →
  step (Settle (Decoded JSNull)) s = Some s' →
  messages s' = messages s
  ∧ loading s' = false
  ∧ (∃ req, log s' = log s ++ [Settled req (Decoded JSNull); SetLoading false])
  ∧ next_render s' = inl TypeError
  ∧ ∀ evs s'', run evs s' = Some s'' → next_render s'' = inl TypeError.
Proof.
  intros Hnone Hs. apply settle_inv in Hs as (req & rest & _ & ->).
  rewrite sendMessage_resume_eq. cbn. rewrite Hnone.
  split; [done|]. split; [done|].
  split; [exists req; by rewrite <- app_assoc|].
  split; [done|]. intros evs s'' Hrun. unfold next_render.
  by rewrite (λ H, run_thrown evs _ s'' TypeError H Hrun).
Qed.

(** *** The request body *)

Lemma quote_unit_printable (c : N) : Forall (λ u, (0x20 ≤ u)%N) (quote_unit c).
Proof.
  assert (∀ n, (0x30 ≤ hex_digit n)%N) as Hhex.
  { intros n. unfold hex_digit. destruct (N.ltb_spec n 10); lia. }
  unfold quote_unit, UnicodeEscape.
  repeat (destruct (_ =? _)%N; [repeat constructor; lia|]).
  destruct (_ || _ || _) eqn:Hesc.
  - repeat constructor; try lia;
      match goal with |- (_ ≤ hex_digit ?n)%N => specialize (Hhex n); lia end.
  - repeat constructor.
    rewrite !orb_false_iff, N.ltb_ge in Hesc. lia.
Qed.

Lemma quote_units_printable (s : jsstring) :
  Forall (λ u, (0x20 ≤ u)%N) (quote_units s).
Proof.
  cut (Forall (λ u, (0x20 ≤ u)%N) (quote_units s)
       ∧ ∀ c, Forall (λ u, (0x20 ≤ u)%N) (quote_units (c :: s))); [tauto|].
  induction s as [|d s [IH1 IH2]].
  - split; [constructor|]. intros c. rewrite quote_units_cons.
    destruct (is_leading_surrogate c);
      [|apply Forall_app; split; [|constructor]]; apply quote_unit_printable.
  - split; [apply IH2|]. intros c. rewrite (quote_units_cons c).
    destruct (is_leading_surrogate c) eqn:Hc.
    + destruct (is_trailing_surrogate d) eqn:Hd.
      * unfold is_leading_surrogate, is_trailing_surrogate in *.
        rewrite !andb_true_iff, !N.leb_le in Hc, Hd.
        repeat constructor; [lia | lia | done].
      * apply Forall_app. split; [apply quote_unit_printable | apply IH2].
    + apply Forall_app. split; [apply quote_unit_printable | apply IH2].
Qed.

(** X8. The body of a request holds no code unit below U+0020, whatever
    the text: every control character and line break of the message is
    sent escaped. *)
Theorem request_body_has_no_control_character (msg : jsstring) :
  Forall (λ u, (0x20 ≤ u)%N) (body (chat_request msg)).
Proof.
  cbn [body chat_request]. unfold QuoteJSONString.
  rewrite !Forall_app. repeat split;
    try apply quote_units_printable; repeat constructor; lia.
Qed.

(** ** The page *)

Lemma source_tag_ok (x : JSValue) (i : nat) :
  if object_like x then ∃ tag, source_tag x i = inr tag
  else source_tag x i = inl TypeError.
Proof.
  unfold source_tag, Get. destruct x; cbn [object_like]; eauto.
Qed.

Lemma Array_map_ok {A B} (f : A → nat → JSError + B) (ok : A → bool) :
  (∀ x i, if ok x then ∃ y, f x i = inr y else f x i = inl TypeError) →
  ∀ l i, if forallb ok l then ∃ ys, Array_map f i l = inr ys
         else Array_map f i l = inl TypeError.
Proof.
  intros Hf. induction l as [|x l IH]; intros i; cbn; [eauto|].
  specialize (Hf x i). specialize (IH (S i)).
  destruct (ok x); cbn.
  - destruct Hf as [y ->]. destruct (forallb ok l).
    + destruct IH as [ys ->]. eauto.
    + by rewrite IH.
  - by rewrite Hf.
Qed.

Lemma sources_block_ok (m : Message) :
  if renderable m then ∃ block, sources_block m = inr block
  else sources_block m = inl TypeError.
Proof.
  unfold renderable, sources_block. destruct (sources m) as [v|]; [|eauto].
  destruct (truthy_length v) eqn:Hlen; cbn [negb orb]; [|eauto].
  destruct v as [| | b | x | str | xs | props]; try done.
  pose proof (Array_map_ok source_tag object_like source_tag_ok xs 0) as H.
  destruct (forallb object_like xs).
  - destruct H as [tags ->]. eauto.
  - by rewrite H.
Qed.

Lemma bubble_row_ok (m : Message) (idx : nat) :
  if renderable m then ∃ row, bubble_row m idx = inr row
  else bubble_row m idx = inl TypeError.
Proof.
  unfold bubble_row. pose proof (sources_block_ok m) as H.
  destruct (renderable m).
  - destruct H as [block ->]. eauto.
  - by rewrite H.
Qed.

Lemma render_ok (s : Session) :
  if forallb renderable (messages s) then ∃ page, render s = inr page
  else render s = inl TypeError.
Proof.
  unfold render.
  pose proof (Array_map_ok bubble_row renderable bubble_row_ok (messages s) 0)
    as H.
  destruct (forallb renderable (messages s)).
  - destruct H as [rows ->]. eauto.
  - by rewrite H.
Qed.

Lemma render_renderable (s : Session) :
  forallb renderable (messages s) = true → ∃ page, render s = inr page.
Proof.
  intros H. pose proof (render_ok s) as Hok. by rewrite H in Hok.
Qed.

(** X9. From the values of its state [App] builds its tree exactly when
    every message of the transcript is renderable; otherwise it throws a
    [TypeError].  It
    throws when some message has [sources] that is a non-empty string or
    an object with a truthy [length] (they have no [map]), or an array
    with [null] in it. *)
Theorem render_throws_exactly_on_bad_sources (s : Session) :
  ((∃ page, render s = inr page) ↔ forallb renderable (messages s) = true)
  ∧ (render s = inl TypeError ↔ forallb renderable (messages s) = false)
  ∧ (∀ err, render s = inl err → err = TypeError).
Proof.
  pose proof (render_ok s) as H.
  destruct (forallb renderable (messages s)).
  - destruct H as [page ->]. split; [split; eauto|]. split; [|done].
    split; discriminate.
  - rewrite H. split; [|split; [done | by intros err [= <-]]].
    split; [by intros [page ?] | done].
Qed.

(** X10. Once [App] throws it throws in every later state of the
    session: the transcript only grows, so the message that makes it throw
    stays in it. *)
Theorem render_failure_persists (evs : list Event) (s s' : Session)
    (err : JSError) :
  render s = inl err → run evs s = Some s' → render s' = inl TypeError.
Proof.
  intros Hfail Hrun.
  pose proof (render_ok s) as Hs. pose proof (render_ok s') as Hs'.
  destruct (run_prefix evs s s' Hrun) as [new Hnew].
  rewrite Hnew, forallb_app in Hs'.
  destruct (forallb renderable (messages s)); [|done].
  destruct Hs as [page Hpage]. by rewrite Hpage in Hfail.
Qed.

Lemma reply_message_renderable (data : JSValue) :
  well_formed_body data = true → renderable (reply_message data) = true.
Proof.
  unfold well_formed_body, reply_message, property, or_else, renderable.
  intros [_ Hwf]%andb_prop. cbn [sources].
  destruct (own_property data (js "sources")) as [v|]; [|done].
  cbn [default from_option id].
  destruct (ToBoolean v) eqn:Hv; [|done].
  cbn [negb orb] in Hwf. by rewrite Hwf, orb_true_r.
Qed.

Lemma well_formed_step (ev : Event) (s s' : Session) :
  well_formed_event ev = true → step ev s = Some s' →
  thrown s = None ∧ forallb renderable (messages s) = true →
  thrown s' = None ∧ forallb renderable (messages s') = true.
Proof.
  intros Hwf Hs [Hnone Hinv]. destruct ev as [value | e | | out].
  - by injection Hs as <-.
  - injection Hs as <-. unfold handleKeyDown. case_bool_decide; [|done].
    destruct (sendMessage_cases s) as [-> | Hacc]; [done|].
    rewrite sendMessage_accepted by done. cbn.
    by rewrite forallb_app, Hinv.
  - injection Hs as <-. destruct (loading s); [done|].
    destruct (sendMessage_cases s) as [-> | Hacc]; [done|].
    rewrite sendMessage_accepted by done. cbn.
    by rewrite forallb_app, Hinv.
  - apply settle_inv in Hs as (req & rest & _ & ->).
    rewrite sendMessage_resume_eq.
    destruct out as [err | err | data];
      [cbn; by rewrite forallb_app, Hinv..|].
    cbn [well_formed_event] in Hwf.
    pose proof Hwf as [Hdata _]%andb_prop. rewrite Hdata.
    cbn [thrown messages]. rewrite forallb_app, Hinv. cbn [forallb].
    by rewrite (reply_message_renderable data Hwf).
Qed.

(** X11. If every decoded body is other than [null] and has a [sources]
    that is absent, falsy or an array without [null] in it, the render of
    [App] gives its tree in every session reached: no updater throws and
    the tree can be built.  Failures of the request, blank input and
    bodies without [answer] never make it throw. *)
Theorem render_succeeds_on_well_formed_bodies (evs : list Event) (s : Session) :
  forallb well_formed_event evs = true → run evs init = Some s →
  ∃ page, next_render s = inr page.
Proof.
  intros Hwf Hrun.
  cut (thrown s = None ∧ forallb renderable (messages s) = true).
  { intros [Hnone H]. unfold next_render. rewrite Hnone.
    by apply render_renderable. }
  assert (thrown init = None ∧ forallb renderable (messages init) = true)
    as Hinit by done.
  revert Hwf Hrun Hinit. generalize init.
  induction evs as [|ev evs IH]; intros s0; cbn.
  - by intros _ [= <-].
  - intros [Hev Hevs]%andb_prop.
    destruct (step ev s0) as [s1|] eqn:Hs; [|done].
    intros Hrun Hinv. apply (IH s1); [done..|]. by eapply well_formed_step.
Qed.

(** *** What the page shows *)

Lemma Array_map_flat_map {A B C} (f : A → nat → JSError + B)
    (g : B → list C) (h : A → list C) :
  (∀ x i y, f x i = inr y → g y = h x) →
  ∀ l i ys, Array_map f i l = inr ys → flat_map g ys = flat_map h l.
Proof.
  intros Hf. induction l as [|x l IH]; intros i ys; cbn.
  - by intros [= <-].
  - destruct (f x i) as [|y] eqn:Hy; [done|].
    destruct (Array_map f (S i) l) as [|ys'] eqn:Hys; [done|].
    intros [= <-]. cbn. by rewrite (Hf x i y), (IH (S i) ys').
Qed.

Lemma flat_map_nil {A B} (l : list A) : flat_map (λ _ : A, @nil B) l = [].
Proof. by induction l. Qed.

Lemma flat_map_singleton {A B} (f : A → B) (l : list A) :
  flat_map (λ x, [f x]) l = f <$> l.
Proof. induction l as [|x l IH]; cbn; [done|]. by rewrite IH. Qed.

(** The elements of a sources block are one [div] of class [sources], one
    [span] without attributes and the [span]s of class [sourceTag]. *)
Lemma select_sources_block (p : jsstring → list Attr → bool) (m : Message)
    (block : Node) :
  (∀ k, p (js "span") [Key k; ClassName (js "sourceTag")] = false) →
  p (js "div") [ClassName (js "sources")] = false →
  p (js "span") [] = false →
  sources_block m = inr block → select p block = [].
Proof.
  intros Htag Hdiv Hspan. unfold sources_block.
  destruct (sources m) as [v|]; [|by intros [= <-]].
  destruct (truthy_length v); [|by intros [= <-]].
  destruct v as [| | b | x | str | xs | props]; try done.
  destruct (Array_map source_tag 0 xs) as [|tags] eqn:Htags; [done|].
  intros [= <-]. cbn [select flat_map]. rewrite Hdiv, Hspan. cbn.
  rewrite app_nil_r.
  assert (flat_map (select p) tags = flat_map (λ _, []) xs) as ->;
    [|apply flat_map_nil].
  apply (Array_map_flat_map source_tag) with (i := 0); [|done].
  intros x i y. unfold source_tag.
  destruct (Get x (js "source")); [done|].
  destruct (Get x (js "chunk_id")); [done|].
  intros [= <-]. cbn. by rewrite Htag.
Qed.

Ltac decide_names :=
  repeat match goal with
    | |- context [bool_decide (?a = ?b)] =>
        first [ rewrite (bool_decide_true (a = b)) by (vm_compute; reflexivity)
              | rewrite (bool_decide_false (a = b)) by (vm_compute; discriminate) ]
    end.

Lemma select_bubble_row_role (m : Message) (idx : nat) (row : Node) :
  bubble_row m idx = inr row →
  select (has_class (js "role")) row =
    [Elem (js "div") [ClassName (js "role")]
       [Expr (JSString (match role m with
                        | user => js "You"
                        | bot => js "Jarvis"
                        end))]].
Proof.
  unfold bubble_row. destruct (sources_block m) as [|block] eqn:Hblock; [done|].
  intros [= <-].
  assert (select (has_class (js "role")) block = []) as Hb.
  { apply (select_sources_block _ m); [| |done..].
    - intros k. cbn. by decide_names.
    - cbn. by decide_names. }
  cbn [select flat_map has_class existsb]. rewrite Hb.
  destruct (role m); cbn [role_name]; decide_names; by cbn.
Qed.

Lemma select_bubble_row_text (m : Message) (idx : nat) (row : Node) :
  bubble_row m idx = inr row →
  select (has_class (js "text")) row =
    [Elem (js "div") [ClassName (js "text")] [Expr (text m)]].
Proof.
  unfold bubble_row. destruct (sources_block m) as [|block] eqn:Hblock; [done|].
  intros [= <-].
  assert (select (has_class (js "text")) block = []) as Hb.
  { apply (select_sources_block _ m); [| |done..].
    - intros k. cbn. by decide_names.
    - cbn. by decide_names. }
  cbn [select flat_map has_class existsb]. rewrite Hb.
  destruct (role m); cbn [role_name]; decide_names; by cbn.
Qed.

Lemma select_bubble_row_tag (t : jsstring) (m : Message) (idx : nat) (row : Node) :
  t ≠ js "div" → t ≠ js "span" →
  bubble_row m idx = inr row → select (has_tag t) row = [].
Proof.
  intros Hdiv Hspan. unfold bubble_row.
  destruct (sources_block m) as [|block] eqn:Hblock; [done|].
  intros [= <-].
  assert (select (has_tag t) block = []) as Hb.
  { apply (select_sources_block _ m); [..|done]; try intros _;
      unfold has_tag; by rewrite bool_decide_false. }
  cbn [select flat_map]. rewrite Hb. unfold has_tag.
  by rewrite !bool_decide_false.
Qed.

(** X12. The tree that [App] returns shows the transcript as it is: one
    bubble per message, in order, labelled "You" for a user message and
    "Jarvis" for any other, with the text of the message in it. *)
Theorem page_shows_the_transcript (s : Session) (page : Node) :
  render s = inr page →
  select (has_class (js "role")) page =
    (λ m, Elem (js "div") [ClassName (js "role")]
            [Expr (JSString (match role m with
                             | user => js "You"
                             | bot => js "Jarvis"
                             end))]) <$> messages s
  ∧ select (has_class (js "text")) page =
      (λ m, Elem (js "div") [ClassName (js "text")] [Expr (text m)])
        <$> messages s.
Proof.
  unfold render.
  destruct (Array_map bubble_row 0 (messages s)) as [|rows] eqn:Hrows; [done|].
  intros [= <-]. split.
  - cbn [select flat_map has_class existsb]. decide_names. cbn.
    rewrite !app_nil_r, <- flat_map_singleton.
    apply (Array_map_flat_map bubble_row _ _ select_bubble_row_role _ 0 rows Hrows).
  - cbn [select flat_map has_class existsb]. decide_names. cbn.
    rewrite !app_nil_r, <- flat_map_singleton.
    apply (Array_map_flat_map bubble_row _ _ select_bubble_row_text _ 0 rows Hrows).
Qed.

(** X13. In every reachable session for which [App] returns, the page has
    one button and one text box.  The button is disabled and reads
    "Thinking..." exactly while a request is in flight, and is enabled and
    reads "Send" otherwise; the text box shows the pending input. *)
Theorem composer_reflects_the_session (evs : list Event) (s : Session)
    (page : Node) :
  run evs init = Some s → render s = inr page →
  let waiting := bool_decide (inflight s ≠ []) in
  select (has_tag (js "button")) page =
    [Elem (js "button") [OnClick sendMessage; Disabled waiting]
       [Expr (JSString (if waiting then js "Thinking..." else js "Send"))]]
  ∧ select (has_tag (js "input")) page =
      [Elem (js "input")
         [Value (input s); OnChange setInput; OnKeyDown handleKeyDown;
          Placeholder (js "Ask a question...")]
         []].
Proof.
  intros Hrun. pose proof (reachable_inflight evs s Hrun) as Hin.
  assert (loading s = bool_decide (inflight s ≠ [])) as Hl.
  { destruct (loading s), (inflight s); try done. }
  unfold render.
  destruct (Array_map bubble_row 0 (messages s)) as [|rows] eqn:Hrows; [done|].
  intros [= <-]. cbv zeta. rewrite <- Hl. split.
  - cbn [select flat_map]. unfold has_tag. decide_names. cbn [app].
    rewrite app_nil_r. fold (has_tag (js "button")).
    assert (flat_map (select (has_tag (js "button"))) rows
            = flat_map (λ _, []) (messages s)) as ->; [|by rewrite flat_map_nil].
    apply (Array_map_flat_map bubble_row) with (i := 0); [|done].
    intros m idx row. apply select_bubble_row_tag; vm_compute; discriminate.
  - cbn [select flat_map]. unfold has_tag. decide_names. cbn [app].
    rewrite app_nil_r. fold (has_tag (js "input")).
    assert (flat_map (select (has_tag (js "input"))) rows
            = flat_map (λ _, []) (messages s)) as ->; [|by rewrite flat_map_nil].
    apply (Array_map_flat_map bubble_row) with (i := 0); [|done].
    intros m idx row. apply select_bubble_row_tag; vm_compute; discriminate.
Qed.

(** *** What is sent *)

Lemma drop_while_nil {A} (p : A → bool) (l : list A) :
  drop_while p l = [] ↔ forallb p l = true.
Proof.
  induction l as [|x l IH]; cbn; [done|]. destruct (p x); [done|].
  split; discriminate.
Qed.

Lemma drop_while_split {A} (p : A → bool) (l : list A) :
  ∃ pre, l = pre ++ drop_while p l ∧ forallb p pre = true.
Proof.
  induction l as [|x l (pre & IH & Hpre)]; cbn; [by exists []|].
  destruct (p x) eqn:Hx; [|by exists []].
  exists (x :: pre). cbn. by rewrite Hx, Hpre, <- IH.
Qed.

Lemma forallb_reverse {A} (p : A → bool) (l : list A) :
  forallb p (reverse l) = forallb p l.
Proof.
  induction l as [|x l IH]; [done|].
  rewrite reverse_cons, forallb_app, IH. cbn.
  by rewrite andb_true_r, andb_comm.
Qed.

Lemma trim_nil (s : jsstring) : trim s = [] ↔ forallb is_trimmable s = true.
Proof.
  unfold trim, trimEnd, trimStart.
  destruct (drop_while_split is_trimmable s) as (pre & Hs & Hpre).
  split.
  - intros H. apply (f_equal reverse) in H. rewrite reverse_involutive in H.
    cbn in H. apply drop_while_nil in H. rewrite forallb_reverse in H.
    rewrite Hs, forallb_app, Hpre, H. done.
  - intros H. apply drop_while_nil in H. by rewrite H.
Qed.

Lemma trim_split (s : jsstring) :
  ∃ pre post, s = pre ++ trim s ++ post
    ∧ forallb is_trimmable pre = true ∧ forallb is_trimmable post = true.
Proof.
  unfold trim, trimEnd, trimStart.
  destruct (drop_while_split is_trimmable s) as (pre & Hs & Hpre).
  destruct (drop_while_split is_trimmable
              (reverse (drop_while is_trimmable s))) as (post & Hr & Hpost).
  exists pre, (reverse post). rewrite forallb_reverse.
  split; [|done]. rewrite <- reverse_app, <- Hr, reverse_involutive. done.
Qed.

(** X14. A call of [sendMessage] does something exactly when the text box
    holds at least one code unit that is not white space or a line
    terminator and no request is in flight: input made of spaces, tabs,
    no-break spaces and line breaks only is never sent. *)
Theorem sent_iff_visible_text (s : Session) :
  sendMessage s ≠ s ↔
    forallb is_trimmable (input s) = false ∧ loading s = false.
Proof.
  split.
  - intros Hsent. destruct (sendMessage_cases s) as [? | [Hmsg Hidle]]; [done|].
    split; [|done]. destruct (forallb is_trimmable (input s)) eqn:H; [|done].
    by apply trim_nil in H.
  - intros [Hvis Hidle] Hsame.
    assert (accepted s) as Hacc.
    { split; [|done]. intros H%trim_nil. by rewrite H in Hvis. }
    apply (f_equal loading) in Hsame.
    rewrite sendMessage_accepted in Hsame by done. cbn in Hsame. congruence.
Qed.

(** X15. The text an accepted call appends and sends is the input with
    its leading and trailing white space and line terminators removed, and
    nothing else: what is between them, inner white space included, is
    kept as it is. *)
Theorem sent_text_is_the_input_without_its_margins (s : Session) :
  accepted s →
  ∃ pre msg post,
    input s = pre ++ msg ++ post
    ∧ forallb is_trimmable pre = true ∧ forallb is_trimmable post = true
    ∧ trimmed msg
    ∧ messages (sendMessage s) = messages s ++ [user_message msg]
    ∧ fetches (log (sendMessage s)) = fetches (log s) ++ [chat_request msg].
Proof.
  intros Hacc. destruct (trim_split (input s)) as (pre & post & Hs & Hpre & Hpost).
  exists pre, (trim (input s)), post.
  split; [done|]. split; [done|]. split; [done|].
  split; [apply trim_trimmed, Hacc|].
  rewrite sendMessage_accepted by done. cbn. split; [done|].
  unfold fetches. by rewrite omap_app.
Qed.

(** X16. Every request of a reachable session is a POST with a JSON
    content type to [BACKEND_URL] followed by "/chat"; an unset or empty
    [VITE_BACKEND_URL] gives "http://localhost:8000/chat", and any other
    value is used as it is. *)
Theorem requests_go_to_the_chat_endpoint (evs : list Event) (s : Session)
    (req : Request) :
  run evs init = Some s → req ∈ fetches (log s) →
  method req = js "POST"
  ∧ headers req = [(js "Content-Type", js "application/json")]
  ∧ url req =
      match VITE_BACKEND_URL with
      | None | Some [] => js "http://localhost:8000/chat"
      | Some base => base ++ js "/chat"
      end.
Proof.
  intros Hrun Hreq.
  assert (∃ msg, req = chat_request msg) as [msg ->].
  { revert Hreq.
    apply (run_invariant
             (λ s, req ∈ fetches (log s) → ∃ msg, req = chat_request msg)
             evs init s); [|by intros ?%elem_of_nil|done].
    intros ev s1 s2 Hinv Hs.
    destruct (step_cases ev s1 s2 Hs)
      as [-> | [[value ->] | [[Hacc ->] | (out & r & rest & Hin & ->)]]];
      [done | | |].
    - cbn. by rewrite fetches_snoc, app_nil_r.
    - rewrite sendMessage_accepted by done. cbn.
      unfold fetches in *. rewrite omap_app. cbn.
      intros [? | ->%list_elem_of_singleton]%elem_of_app; eauto.
    - destruct (sendMessage_resume_parts out
        (mkSession (messages s1) (input s1) (loading s1) rest
           (log s1 ++ [Settled r out])
           (thrown s1))) as (_ & _ & _ & _ & ->).
      cbn. by rewrite fetches_snoc, app_nil_r. }
  split; [done|]. split; [done|]. cbn [url chat_request]. unfold BACKEND_URL.
  destruct VITE_BACKEND_URL as [[|c base]|]; done.
Qed.

(** *** Citations *)

Lemma source_tag_inr (x : JSValue) (i : nat) (tag : Node) :
  source_tag x i = inr tag →
  tag = Elem (js "span") [Key i; ClassName (js "sourceTag")]
          [Expr (property x (js "source")); Expr (JSString (js "#"));
           Expr (property x (js "chunk_id"))].
Proof.
  unfold source_tag, Get, property, own_property.
  destruct x; try done; by intros [= <-].
Qed.

Lemma Array_map_source_tag (xs : list JSValue) (i : nat) (tags : list Node) :
  Array_map source_tag i xs = inr tags →
  tags = imap (λ j x, Elem (js "span") [Key (i + j); ClassName (js "sourceTag")]
                        [Expr (property x (js "source")); Expr (JSString (js "#"));
                         Expr (property x (js "chunk_id"))]) xs.
Proof.
  revert i tags. induction xs as [|x xs IH]; intros i tags; cbn [Array_map].
  - by intros [= <-].
  - destruct (source_tag x i) as [|tag] eqn:Htag; [done|].
    destruct (Array_map source_tag (S i) xs) as [|tags'] eqn:Htags; [done|].
    intros [= <-]. cbn [imap]. rewrite Nat.add_0_r.
    f_equal; [by apply source_tag_inr|].
    rewrite (IH (S i) tags' Htags). apply imap_ext. intros j y _. cbn.
    by rewrite Nat.add_succ_r.
Qed.

Lemma select_source_tags (tags : list Node) (xs : list JSValue) (i : nat) :
  Array_map source_tag i xs = inr tags →
  flat_map (select (has_class (js "sourceTag"))) tags = tags.
Proof.
  revert i tags. induction xs as [|x xs IH]; intros i tags; cbn [Array_map].
  - by intros [= <-].
  - destruct (source_tag x i) as [|tag] eqn:Htag; [done|].
    destruct (Array_map source_tag (S i) xs) as [|tags'] eqn:Htags; [done|].
    intros [= <-]. cbn [flat_map]. rewrite (IH (S i) tags' Htags).
    apply source_tag_inr in Htag as ->.
    cbn [select flat_map has_class existsb]. decide_names. by cbn.
Qed.

Lemma select_bubble_row_citations (m : Message) (idx : nat) (row : Node) :
  bubble_row m idx = inr row →
  select (has_class (js "sourceTag")) row = citation_tags m.
Proof.
  unfold bubble_row, sources_block, citation_tags.
  destruct (sources m) as [v|].
  - destruct (truthy_length v) eqn:Hlen.
    + destruct v as [| | b | x | str | xs | props]; try done.
      destruct (Array_map source_tag 0 xs) as [|tags] eqn:Htags; [done|].
      intros [= <-]. cbn [select flat_map has_class existsb].
      rewrite (select_source_tags tags xs 0 Htags).
      rewrite (Array_map_source_tag xs 0 tags Htags).
      destruct (role m); cbn [role_name]; decide_names; cbn;
        by rewrite !app_nil_r.
    + intros [= <-]. cbn [select flat_map has_class existsb].
      assert (match v with JSArray xs => xs = [] | _ => True end) as Hv.
      { destruct v as [| | | | | xs |]; try done. cbn in Hlen.
        by case_bool_decide. }
      destruct (role m); cbn [role_name]; decide_names; cbn;
        destruct v as [| | | | | xs |]; try done; by rewrite Hv.
  - intros [= <-]. cbn [select flat_map has_class existsb].
    destruct (role m); cbn [role_name]; decide_names; by cbn.
Qed.

(** X17. The tree that [App] returns shows, for each message in order,
    one tag per element of its [sources] array, in order: the [source] of
    the element, "#" and its [chunk_id].  A message without [sources],
    or with an empty array, shows no tag. *)
Theorem page_shows_the_citations (s : Session) (page : Node) :
  render s = inr page →
  select (has_class (js "sourceTag")) page = flat_map citation_tags (messages s).
Proof.
  unfold render.
  destruct (Array_map bubble_row 0 (messages s)) as [|rows] eqn:Hrows; [done|].
  intros [= <-]. cbn [select flat_map has_class existsb]. decide_names. cbn.
  rewrite !app_nil_r.
  apply (Array_map_flat_map bubble_row _ _ select_bubble_row_citations _ 0 rows Hrows).
Qed.

End App.

(** ** Concrete sessions

    The statements above at explicit inputs, with the backend address left
    unset. *)

Lemma sendMessage_noop_witness :
  let blank := setInput [0x20%N; 0x0A%N] init in
  let busy := setInput (js "again") (sendMessage None (setInput (js "hi") init)) in
  sendMessage None blank = blank ∧ sendMessage None busy = busy.
Proof.
  split.
  - apply (sendMessage_noop None (setInput [0x20%N; 0x0A%N] init)).
    left. vm_compute. reflexivity.
  - apply (sendMessage_noop None
             (setInput (js "again") (sendMessage None (setInput (js "hi") init)))).
    right. vm_compute. reflexivity.
Defined.

Lemma sendMessage_synchronous_phase_witness :
  let s := setInput ([0x20%N] ++ js "hi" ++ [0x20%N]) init in
  messages (sendMessage None s)
    = messages s ++ [mkMessage user (JSString (trim (input s))) None]
  ∧ input (sendMessage None s) = []
  ∧ loading (sendMessage None s) = true.
Proof.
  apply (sendMessage_synchronous_phase None
           (setInput ([0x20%N] ++ js "hi" ++ [0x20%N]) init)).
  split; [vm_compute; discriminate | reflexivity].
Defined.

(** The user message of an accepted call has no [sources] property: it is
    not the message [{ role: "user", text: "hi", sources: [] }]. *)
Lemma user_message_sources_counterexample :
  let s := setInput (js "hi") init in
  accepted s
  ∧ messages (sendMessage None s)
      ≠ messages s ++ [mkMessage user (JSString (js "hi")) (Some (JSArray []))].
Proof.
  split; [split; [vm_compute; discriminate | reflexivity]|].
  vm_compute. discriminate.
Qed.

Lemma loading_brackets_the_request_witness :
  let s := setInput (js "hi") init in
  loading (sendMessage None s) = true
  ∧ ∀ evs s', forallb is_ui evs = true → run None evs (sendMessage None s) = Some s' →
      loading s' = true
      ∧ ∀ out, ∃ s'', step None (Settle out) s' = Some s'' ∧ loading s'' = false.
Proof.
  apply (loading_brackets_the_request None (setInput (js "hi") init)).
  split; [vm_compute; discriminate | reflexivity].
Defined.

Lemma failed_request_reply_witness :
  let s := setInput (js "hi") init in
  let s' := setInput (js "hello?") (sendMessage None s) in
  ∃ s'', step None (Settle (JsonRejected SyntaxError)) s' = Some s''
    ∧ messages s'' =
        messages s
        ++ [mkMessage user (JSString (trim (input s))) None;
            mkMessage bot
              (JSString
                 (js "Error: Could not reach backend. Is it running on port 8000?"))
              None]
    ∧ loading s'' = false
    ∧ ∀ value, trim value ≠ [] →
        let s3 := sendMessage None (setInput value s'') in
        messages s3 = messages s'' ++ [user_message (trim value)]
        ∧ fetches (log s3) = fetches (log s'') ++ [chat_request None (trim value)].
Proof.
  apply (failed_request_reply None (setInput (js "hi") init)
           [Change (js "hello?")] _ (JsonRejected SyntaxError)).
  - split; [vm_compute; discriminate | reflexivity].
  - reflexivity.
  - vm_compute. reflexivity.
  - reflexivity.
Defined.

(** The reply to a failed request has no [sources] property: its [sources]
    is not the empty array. *)
Lemma error_message_sources_counterexample :
  let s' := sendMessage None (setInput (js "hi") init) in
  ∃ s'' reply, step None (Settle (FetchRejected TypeError)) s' = Some s''
    ∧ messages s'' = messages s' ++ [reply]
    ∧ sources reply ≠ Some (JSArray []).
Proof.
  eexists _, _. split; [vm_compute; reflexivity|].
  split; [vm_compute; reflexivity | discriminate].
Qed.

Lemma decoded_reply_witness :
  let three := JSNumber (S754_finite false 6755399441055744 (-51)) in
  let cited :=
    JSArray [JSObject (<[js "chunk_id" := three]> {[ js "source" := JSString (js "doc1") ]})] in
  let data :=
    JSObject (<[js "sources" := cited]> {[ js "answer" := JSString (js "Paris") ]}) in
  let s := sendMessage None (setInput (js "capital of France?") init) in
  ∃ s', step None (Settle (Decoded data)) s = Some s'
    ∧ messages s' = messages s ++ [mkMessage bot (JSString (js "Paris")) (Some cited)].
Proof.
  eexists. split; [vm_compute; reflexivity|].
  pose proof
    (decoded_reply None
       (JSObject
          (<[js "sources" :=
               JSArray [JSObject
                          (<[js "chunk_id" :=
                               JSNumber (S754_finite false 6755399441055744 (-51))]>
                             {[ js "source" := JSString (js "doc1") ]})]]>
             {[ js "answer" := JSString (js "Paris") ]}))
       (sendMessage None (setInput (js "capital of France?") init)) _
       ltac:(discriminate) ltac:(discriminate) ltac:(vm_compute; reflexivity))
    as H.
  vm_compute in H |- *. exact H.
Defined.

(** A decoded body whose [answer] is present and is the empty string: the
    text of the reply is "No response", not that answer. *)
Lemma empty_answer_counterexample :
  let data := JSObject {[ js "answer" := JSString [] ]} in
  let s := sendMessage None (setInput (js "hi") init) in
  own_property data (js "answer") = Some (JSString [])
  ∧ ∃ s' reply, step None (Settle (Decoded data)) s = Some s'
      ∧ messages s' = messages s ++ [reply]
      ∧ text reply = JSString (js "No response")
      ∧ text reply ≠ JSString [].
Proof.
  split; [vm_compute; reflexivity|]. eexists _, _.
  split; [vm_compute; reflexivity|]. split; [vm_compute; reflexivity|].
  split; [vm_compute; reflexivity|]. vm_compute. discriminate.
Qed.

Lemma falsy_fields_fall_back_witness :
  let props : gmap jsstring JSValue :=
    <[js "sources" := JSNull]> {[ js "answer" := JSString [] ]} in
  let s := sendMessage None (setInput (js "hi") init) in
  ∃ s' reply, step None (Settle (Decoded (JSObject props))) s = Some s'
    ∧ messages s' = messages s ++ [reply]
    ∧ text reply = JSString (js "No response")
    ∧ sources reply = Some (JSArray []).
Proof.
  eexists.
  destruct (falsy_fields_fall_back None
              (<[js "sources" := JSNull]> {[ js "answer" := JSString [] ]})
              (sendMessage None (setInput (js "hi") init)) _
              ltac:(vm_compute; reflexivity))
    as (reply & Hm & _ & Htext & Hsources).
  exists reply. split; [vm_compute; reflexivity|]. split; [exact Hm|]. split.
  - apply (Htext (JSString [])); vm_compute; reflexivity.
  - apply (Hsources JSNull); vm_compute; reflexivity.
Defined.


Lemma request_ordering_witness :
  let s := setInput ([0x20%N] ++ js "hi") init in
  let req := chat_request None (js "hi") in
  body req = [0x7B; 0x22]%N ++ js "message" ++ [0x22; 0x3A; 0x22]%N
             ++ js "hi" ++ [0x22; 0x7D]%N
  ∧ log (sendMessage None s) =
      log s ++ [SetMessages [greeting; user_message (js "hi")];
                SetInput []; SetLoading true; Fetch req]
  ∧ ∀ evs s', forallb is_ui evs = true → run None evs (sendMessage None s) = Some s' →
      messages s' = [greeting; user_message (js "hi")]
      ∧ fetches (log s') = [req].
Proof.
  destruct (request_ordering None (setInput ([0x20%N] ++ js "hi") init))
    as (_ & Hbody & _ & Hlog & Hrest).
  - split; [vm_compute; discriminate | reflexivity].
  - reflexivity.
  - split; [vm_compute; reflexivity|]. split; [vm_compute; reflexivity|].
    intros evs s' Hui Hrun.
    destruct (Hrest evs s' Hui Hrun) as (Hm & Hf & _).
    split; [exact Hm | exact Hf].
Defined.

Lemma handleKeyDown_is_sendMessage_witness :
  let s := setInput (js "hi") init in
  handleKeyDown None (mkKeyboardEvent (js "Enter")) s = sendMessage None s
  ∧ handleKeyDown None (mkKeyboardEvent (js "a")) s = s.
Proof.
  split.
  - apply (handleKeyDown_is_sendMessage None (mkKeyboardEvent (js "Enter"))).
    reflexivity.
  - apply (handleKeyDown_is_sendMessage None (mkKeyboardEvent (js "a"))).
    vm_compute. discriminate.
Defined.

Lemma transcript_append_only_witness :
  let s := sendMessage None (setInput (js "hi") init) in
  ∃ s', step None (Settle (FetchRejected TypeError)) s = Some s'
    ∧ messages s `prefix_of` messages s'.
Proof.
  destruct (transcript_append_only None) as (_ & _ & Hstep & _).
  eexists. split; [vm_compute; reflexivity|].
  apply (Hstep (Settle (FetchRejected TypeError))). vm_compute. reflexivity.
Defined.

Lemma one_request_at_a_time_witness :
  ∃ s, run None waiting_run init = Some s
    ∧ (loading s = true →
         ∃ msg, last (messages s) = Some (user_message msg)
                ∧ inflight s = [chat_request None msg])
    ∧ (loading s = false →
         inflight s = [] ∧ ∀ out, step None (Settle out) s = None).
Proof.
  eexists. split; [vm_compute; reflexivity|].
  apply (one_request_at_a_time None waiting_run). vm_compute. reflexivity.
Defined.

Lemma requests_match_user_messages_witness :
  ∃ s, run None sample_run init = Some s
    ∧ fetches (log s) = chat_request None <$> sent_texts (messages s).
Proof.
  eexists. split; [vm_compute; reflexivity|].
  apply (requests_match_user_messages None sample_run). vm_compute. reflexivity.
Defined.

Lemma user_messages_are_trimmed_witness :
  ∃ s, run None sample_run init = Some s
    ∧ ∀ m, m ∈ messages s → role m = user → ∃ t, text m = JSString t ∧ trimmed t.
Proof.
  eexists. split; [vm_compute; reflexivity|].
  apply (user_messages_are_trimmed None sample_run). vm_compute. reflexivity.
Defined.

Lemma texts_are_truthy_witness :
  ∃ s, run None sample_run init = Some s
    ∧ ∀ m, m ∈ messages s → ToBoolean (text m) = true.
Proof.
  eexists. split; [vm_compute; reflexivity|].
  apply (texts_are_truthy None sample_run). vm_compute. reflexivity.
Defined.

Lemma settle_keeps_input_witness :
  let s := default init (run None waiting_run init) in
  ∃ s', step None (Settle (Decoded paris_body)) s = Some s'
    ∧ input s = js "typing" ∧ input s' = input s.
Proof.
  eexists. split; [vm_compute; reflexivity|]. split; [vm_compute; reflexivity|].
  apply (settle_keeps_input None (Decoded paris_body)
           (default init (run None waiting_run init))).
  vm_compute. reflexivity.
Defined.

Lemma click_is_enter_witness :
  step None Click (setInput (js "hi") init)
  = step None (KeyDown enter) (setInput (js "hi") init).
Proof.
  apply (click_is_enter None enter (setInput (js "hi") init)). reflexivity.
Defined.

Lemma null_body_is_not_caught_witness :
  let s := default init (run None waiting_run init) in
  ∃ s', step None (Settle (Decoded JSNull)) s = Some s'
    ∧ messages s' = messages s
    ∧ loading s' = false
    ∧ next_render None s' = inl TypeError.
Proof.
  eexists. split; [vm_compute; reflexivity|].
  destruct (null_body_is_not_caught None
              (default init (run None waiting_run init)) _
              ltac:(vm_compute; reflexivity) ltac:(vm_compute; reflexivity))
    as (Hm & Hl & _ & Hrender & _).
  split; [exact Hm|]. split; [exact Hl | exact Hrender].
Defined.

Lemma render_failure_persists_witness :
  let s := default init (run None string_sources_run init) in
  let evs := [Change (js "again"); KeyDown enter; Settle (JsonRejected SyntaxError)] in
  render None s = inl TypeError
  ∧ ∃ s', run None evs s = Some s' ∧ render None s' = inl TypeError.
Proof.
  split; [vm_compute; reflexivity|].
  eexists. split; [vm_compute; reflexivity|].
  apply (render_failure_persists None
           [Change (js "again"); KeyDown enter; Settle (JsonRejected SyntaxError)]
           (default init (run None string_sources_run init)) _ TypeError);
    vm_compute; reflexivity.
Defined.

Lemma render_succeeds_on_well_formed_bodies_witness :
  ∃ s, run None sample_run init = Some s
    ∧ ∃ page, next_render None s = inr page.
Proof.
  eexists. split; [vm_compute; reflexivity|].
  apply (render_succeeds_on_well_formed_bodies None sample_run);
    vm_compute; reflexivity.
Defined.

Lemma page_shows_the_transcript_witness :
  let s := default init (run None sample_run init) in
  match render None s with
  | inr page =>
      select (has_class (js "role")) page =
        (λ m, Elem (js "div") [ClassName (js "role")]
                [Expr (JSString (match role m with
                                 | user => js "You"
                                 | bot => js "Jarvis"
                                 end))]) <$> messages s
      ∧ select (has_class (js "text")) page =
          (λ m, Elem (js "div") [ClassName (js "text")] [Expr (text m)])
            <$> messages s
  | inl _ => False
  end.
Proof.
  cbv zeta.
  destruct (render_renderable None (default init (run None sample_run init))
              ltac:(vm_compute; reflexivity))
    as [page Hrender].
  rewrite Hrender. cbv beta iota.
  apply (page_shows_the_transcript None _ page Hrender).
Defined.

Lemma composer_reflects_the_session_witness :
  let s := default init (run None waiting_run init) in
  match render None s with
  | inr page =>
      select (has_tag (js "button")) page =
        [Elem (js "button") [OnClick (sendMessage None); Disabled true]
           [Expr (JSString (js "Thinking..."))]]
      ∧ select (has_tag (js "input")) page =
          [Elem (js "input")
             [Value (js "typing"); OnChange setInput;
              OnKeyDown (handleKeyDown None);
              Placeholder (js "Ask a question...")]
             []]
  | inl _ => False
  end.
Proof.
  cbv zeta.
  destruct (render_renderable None (default init (run None waiting_run init))
              ltac:(vm_compute; reflexivity))
    as [page Hrender].
  rewrite Hrender. cbv beta iota.
  pose proof (composer_reflects_the_session None waiting_run
                (default init (run None waiting_run init)) page
                ltac:(vm_compute; reflexivity) Hrender) as H.
  cbv zeta in H.
  assert (bool_decide (inflight (default init (run None waiting_run init)) ≠ [])
          = true) as Hwaiting by (vm_compute; reflexivity).
  assert (input (default init (run None waiting_run init)) = js "typing")
    as Hinput by (vm_compute; reflexivity).
  rewrite Hwaiting, Hinput in H. exact H.
Defined.

Lemma sent_text_is_the_input_without_its_margins_witness :
  let s := setInput ([0x20; 0x09]%N ++ js "a  b" ++ [0xA0; 0x0A]%N) init in
  ∃ pre msg post,
    input s = pre ++ msg ++ post
    ∧ forallb is_trimmable pre = true ∧ forallb is_trimmable post = true
    ∧ trimmed msg
    ∧ messages (sendMessage None s) = messages s ++ [user_message msg]
    ∧ fetches (log (sendMessage None s))
      = fetches (log s) ++ [chat_request None msg].
Proof.
  apply (sent_text_is_the_input_without_its_margins None
           (setInput ([0x20; 0x09]%N ++ js "a  b" ++ [0xA0; 0x0A]%N) init)).
  split; [vm_compute; discriminate | reflexivity].
Defined.

Lemma requests_go_to_the_chat_endpoint_witness :
  let s := default init (run (Some []) sample_run init) in
  let req := chat_request (Some []) (js "and of Italy?") in
  req ∈ fetches (log s)
  ∧ method req = js "POST"
  ∧ headers req = [(js "Content-Type", js "application/json")]
  ∧ url req = js "http://localhost:8000/chat".
Proof.
  assert (chat_request (Some []) (js "and of Italy?")
          ∈ fetches (log (default init (run (Some []) sample_run init)))) as Hin.
  { vm_compute. apply list_elem_of_further, list_elem_of_here. }
  split; [exact Hin|].
  apply (requests_go_to_the_chat_endpoint (Some []) sample_run
           (default init (run (Some []) sample_run init)) _
           ltac:(vm_compute; reflexivity) Hin).
Defined.

Lemma page_shows_the_citations_witness :
  let s := default init (run None sample_run init) in
  match render None s with
  | inr page =>
      select (has_class (js "sourceTag")) page
      = flat_map citation_tags (messages s)
  | inl _ => False
  end.
Proof.
  cbv zeta.
  destruct (render_renderable None (default init (run None sample_run init))
              ltac:(vm_compute; reflexivity))
    as [page Hrender].
  rewrite Hrender. cbv beta iota.
  apply (page_shows_the_citations None _ page Hrender).
Defined.

Example sample_citations :
  flat_map citation_tags (messages (default init (run None sample_run init)))
  = [Elem (js "span") [Key 0; ClassName (js "sourceTag")]
       [Expr (JSString (js "doc1")); Expr (JSString (js "#"));
        Expr (JSNumber (S754_finite false 6755399441055744 (-51)))]].
Proof. vm_compute. reflexivity. Qed.

(** One round trip whose body decodes to [null]: the user message stays
    the last one, and the render ends with the exception. *)
Example null_round_trip :
  let s := default init
             (run None [Change (js "hi"); Click; Settle (Decoded JSNull)] init) in
  messages s = [greeting; user_message (js "hi")]
  ∧ loading s = false
  ∧ thrown s = Some TypeError.
Proof. vm_compute. done. Qed.
